(** * configure_spaces_mcp: generation of MCP client configuration

    A shallow embedding of [configure_spaces_mcp.py] and the proofs of its
    specification.

    Modelling choices.
    - A Python [str] is a Rocq [string]; each [ascii] stands for one character
      with code point below 256.  The order [String.le] of stdpp compares
      character codes lexicographically, as Python compares [str] values.
    - A Python [dict] keeps its keys in insertion order: it is an association
      list without repeated keys, [Dict.set] overwrites the value of a key that
      is present and appends a key that is not.
    - Raising an exception is returning [Raise e]; the exception classes that
      occur are [ValueError], [KeyError], [SystemExit], [OSError] and
      [UnicodeEncodeError].
    - The outside world is the file system (a finite map from paths to file
      contents) and the text printed on standard output, threaded through
      [main] explicitly, together with what the environment decides: whether
      the file system accepts a write, refuses it or breaks it off
      ([fs_write]), and whether standard output can encode a text that is not
      ASCII ([stdout_encodes]).  An error of the output stream itself (a
      closed pipe) is not part of the model.
    - [main] starts from the arguments as [argparse] has parsed them (the
      record [Namespace]); a path is the string that names it.  What
      [argparse] makes of a command line is not computed: [script] takes it
      as one of the three results [argparse] can have.
    - [json.dumps] and [json.loads] are the functions of Python's [json]
      module, [iterencode], [encode_basestring_ascii], [scan_once],
      [JSONArray], [JSONObject] and [scanstring] following the functions of
      these names in [json.encoder], [json.decoder] and [json.scanner]. *)

From Stdlib Require Import String Ascii List ZArith Lia Bool.
From stdpp Require Import base tactics option list sorting gmap strings pretty.

Set Warnings "-clear-no-such-hyp".

Local Open Scope string_scope.
Local Open Scope list_scope.

(** stdpp blocks the unfolding of [String.append]; the proofs below compute
    with it. *)
#[local] Arguments String.append !_ _ / : simpl nomatch.

(** ** Exceptions and results *)

Inductive exn : Type :=
  | ValueError (msg : string)
  | KeyError (key : string)
  | SystemExit (msg : string)
  | OSError (msg : string)
  | UnicodeEncodeError (object : string).

Inductive result (A : Type) : Type :=
  | Ok (a : A)
  | Raise (e : exn).

Arguments Ok {A} a.
Arguments Raise {A} e.

#[global] Instance result_ret : MRet result := fun A a => Ok a.

#[global] Instance result_bind : MBind result := fun A B k r =>
  match r with
  | Ok a => k a
  | Raise e => Raise e
  end.

(** ** Python values that occur in a configuration

    [Dict[str, object]] with [str] and [List[str]] objects, and the dictionaries
    that contain them. *)

Definition dict (V : Type) : Type := list (string * V).

Unset Elimination Schemes.
Inductive pyobj : Type :=
  | PStr (s : string)
  | PList (xs : list pyobj)
  | PDict (kvs : list (string * pyobj)).
Set Elimination Schemes.

(** Induction on a value, with the hypothesis for every element of a list and
    every value of a dictionary. *)
Fixpoint pyobj_ind (P : pyobj -> Prop)
    (Hstr : forall s, P (PStr s))
    (Hlist : forall xs, Forall P xs -> P (PList xs))
    (Hdict : forall kvs, Forall (fun kv => P (snd kv)) kvs -> P (PDict kvs))
    (o : pyobj) : P o :=
  match o with
  | PStr s => Hstr s
  | PList xs =>
      Hlist xs
        ((fix all (ys : list pyobj) : Forall P ys :=
            match ys with
            | [] => @List.Forall_nil _ P
            | y :: ys' =>
                @List.Forall_cons _ P y ys' (pyobj_ind P Hstr Hlist Hdict y) (all ys')
            end) xs)
  | PDict kvs =>
      Hdict kvs
        ((fix all (ys : list (string * pyobj))
            : Forall (fun kv => P (snd kv)) ys :=
            match ys with
            | [] => @List.Forall_nil _ _
            | kv :: ys' =>
                @List.Forall_cons _ (fun kv => P (snd kv)) kv ys'
                  (pyobj_ind P Hstr Hlist Hdict (snd kv)) (all ys')
            end) kvs)
  end.

Module Dict.

Definition keys {V} (d : dict V) : list string := map fst d.

Fixpoint get {V} (d : dict V) (k : string) : option V :=
  match d with
  | [] => None
  | (k', v) :: d' => if String.eqb k k' then Some v else get d' k
  end.

(** [d[k]] *)
Definition getitem {V} (d : dict V) (k : string) : result V :=
  match get d k with
  | Some v => Ok v
  | None => Raise (KeyError k)
  end.

(** [k in d] *)
Definition mem {V} (d : dict V) (k : string) : bool :=
  match get d k with Some _ => true | None => false end.

(** [d[k] = v]: an existing key keeps its place, a new key goes last. *)
Fixpoint set {V} (k : string) (v : V) (d : dict V) : dict V :=
  match d with
  | [] => [(k, v)]
  | (k', v') :: d' =>
      if String.eqb k k' then (k', v) :: d' else (k', v') :: set k v d'
  end.

(** [d.update(other)] *)
Definition update {V} (d other : dict V) : dict V :=
  fold_left (fun acc kv => set (fst kv) (snd kv) acc) other d.

(** [{key(x): val(x) for x in xs}] *)
Definition comprehension {A V} (key : A -> string) (val : A -> V)
    (xs : list A) : dict V :=
  fold_left (fun acc x => set (key x) (val x) acc) xs [].

End Dict.

(** ** Strings *)

(** [str.isspace] on one character, for code points below 256. *)
Definition isspace (c : ascii) : bool :=
  let n := N_of_ascii c in
  ((9 <=? n) && (n <=? 13) || (28 <=? n) && (n <=? 32)
   || (n =? 133) || (n =? 160))%N.

(** [str.split()] without arguments: the scan either skips whitespace
    ([tok = None]) or is inside a token ([tok = Some t], [t] the characters
    read so far). *)
Fixpoint split_scan (tok : option string) (s : string) : list string :=
  match s with
  | EmptyString =>
      match tok with
      | None => []
      | Some t => [t]
      end
  | String c s' =>
      match tok with
      | None =>
          if isspace c then split_scan None s'
          else split_scan (Some (String c EmptyString)) s'
      | Some t =>
          if isspace c then t :: split_scan None s'
          else split_scan (Some (t +:+ String c EmptyString)) s'
      end
  end.

Definition split (s : string) : list string := split_scan None s.

(** [sep.join(parts)] *)
Fixpoint join (sep : string) (parts : list string) : string :=
  match parts with
  | [] => ""
  | [p] => p
  | p :: ps => p +:+ sep +:+ join sep ps
  end.

(** [sorted(names)] on strings. *)
Definition sorted (names : list string) : list string :=
  merge_sort String.le names.

(** ** The catalogue entries *)

Definition DEFAULT_CONFIG_PATH : string := "mcp_spaces.json".

Record SpaceServer : Type := mkSpaceServer {
  space_id : string;
  display_name : string;
  transport : string;
  entrypoint : string;
  description : string
}.

(** [SpaceServer.to_config] *)
Definition to_config (self : SpaceServer) : result (dict pyobj) :=
  server_config ←
    (if String.eqb (transport self) "http" then
       Ok (PDict [("type", PStr "http"); ("url", PStr (entrypoint self))])
     else if String.eqb (transport self) "ws" then
       Ok (PDict [("type", PStr "ws"); ("url", PStr (entrypoint self))])
     else if String.eqb (transport self) "command" then
       match split (entrypoint self) with
       | command :: args =>
           Ok (PDict [("command", PStr command);
                      ("args", PList (map PStr args))])
       | [] =>
           Raise (ValueError
                    "not enough values to unpack (expected at least 1, got 0)")
       end
     else
       Raise (ValueError ("Unsupported transport '" +:+ transport self
                          +:+ "' for " +:+ space_id self)));
  Ok [(display_name self, server_config)].

Definition POPULAR_SPACES : list SpaceServer :=
  [ {| space_id := "modelcontextprotocol/Everything";
       display_name := "everything";
       transport := "command";
       entrypoint := "npx -y @modelcontextprotocol/server-everything stdio";
       description :=
         "Comprehensive protocol exerciser with echo, add, resources, prompts, and"
         +:+ " sampling support. Useful for validating MCP client implementations." |};
    {| space_id := "meta-llama/llama-3-8b-instruct";
       display_name := "llama-3-8b-chat";
       transport := "http";
       entrypoint := "https://llama-3-8b-instruct.hf.space/mcp";
       description :=
         "Community LLaMA 3 chat interface. HTTP transport exposes inference"
         +:+ " endpoints suitable for natural language tooling." |};
    {| space_id := "stabilityai/stable-diffusion";
       display_name := "stable-diffusion";
       transport := "http";
       entrypoint := "https://stabilityai-stable-diffusion.hf.space/mcp";
       description :=
         "Image generation pipeline mirroring the Stable Diffusion demo space." |};
    {| space_id := "microsoft/phi-3-vision";
       display_name := "phi-3-vision";
       transport := "http";
       entrypoint := "https://microsoft-phi-3-vision.hf.space/mcp";
       description :=
         "Vision-language toolchain exposing the Phi-3 multimodal experience via"
         +:+ " MCP compatible HTTP endpoints." |} ].

(** [build_combined_config]: the loop over [spaces], [combined] being the
    dictionary built so far. *)
Fixpoint build_combined_loop (combined : dict pyobj) (spaces : list SpaceServer)
    : result (dict pyobj) :=
  match spaces with
  | [] => Ok combined
  | space :: rest =>
      fragment ← to_config space;
      build_combined_loop (Dict.update combined fragment) rest
  end.

Definition build_combined_config (spaces : list SpaceServer)
    : result (dict pyobj) :=
  build_combined_loop [] spaces.

(** [resolve_selection]; [selection] is [None] when [--include] is absent. *)
Definition resolve_selection (selection : option (list string))
    : result (list SpaceServer) :=
  match selection with
  | None | Some [] => Ok POPULAR_SPACES
  | Some selection =>
      let available :=
        Dict.comprehension display_name (fun space => space) POPULAR_SPACES in
      let unknown :=
        filter (fun name => Dict.mem available name = false) selection in
      match unknown with
      | _ :: _ =>
          let valid := join ", " (sorted (Dict.keys available)) in
          Raise (SystemExit ("Unknown space(s): " +:+ join ", " unknown
                             +:+ ". Valid options: " +:+ valid))
      | [] =>
          mapM (Dict.getitem available) selection
      end
  end.



(** ** JSON text: [json.dumps(obj, indent=2)]

    The encoder of the [json] module with its defaults ([ensure_ascii=True],
    item separator [","], key separator [": "]) and an indent of two spaces. *)

Definition dquote : ascii := "034"%char.
Definition backslash : ascii := "092"%char.
Definition newline : ascii := "010"%char.

Definition hex_digit (n : N) : ascii :=
  (if n <? 10 then ascii_of_N (48 + n) else ascii_of_N (87 + n))%N.

(** ['\\u{0:04x}'.format(n)] for [n] below 256. *)
Definition escape_u (n : N) : string :=
  String backslash
    (String "u" (String "0" (String "0"
       (String (hex_digit (n / 16)) (String (hex_digit (n mod 16)) ""))))).

(** The replacement of one character by [ESCAPE_ASCII] and [ESCAPE_DCT]:
    printable ASCII other than the quote and the backslash is kept. *)
Definition escape_char (c : ascii) : string :=
  let n := N_of_ascii c in
  (if n =? 34 then String backslash (String dquote "")
   else if n =? 92 then String backslash (String backslash "")
   else if n =? 8 then String backslash "b"
   else if n =? 12 then String backslash "f"
   else if n =? 10 then String backslash "n"
   else if n =? 13 then String backslash "r"
   else if n =? 9 then String backslash "t"
   else if (32 <=? n) && (n <=? 126) then String c ""
   else escape_u n)%N.

Fixpoint escape (s : string) : string :=
  match s with
  | EmptyString => ""
  | String c s' => escape_char c +:+ escape s'
  end.

Definition encode_basestring_ascii (s : string) : string :=
  String dquote (escape s +:+ String dquote "").

Fixpoint spaces_of (n : nat) : string :=
  match n with
  | O => ""
  | S n' => String " " (spaces_of n')
  end.

(** ['\n' + _indent * _current_indent_level] *)
Definition newline_indent (level : nat) : string :=
  String newline (spaces_of (2 * level)).

Fixpoint iterencode (level : nat) (o : pyobj) : string :=
  match o with
  | PStr s => encode_basestring_ascii s
  | PList [] => "[]"
  | PList (x :: xs) =>
      "[" +:+ newline_indent (S level) +:+ iterencode (S level) x
      +:+ (fix rest (ys : list pyobj) : string :=
             match ys with
             | [] => ""
             | y :: ys' =>
                 "," +:+ newline_indent (S level) +:+ iterencode (S level) y
                 +:+ rest ys'
             end) xs
      +:+ newline_indent level +:+ "]"
  | PDict [] => "{}"
  | PDict ((k, v) :: kvs) =>
      "{" +:+ newline_indent (S level)
      +:+ encode_basestring_ascii k +:+ ": " +:+ iterencode (S level) v
      +:+ (fix rest (ys : list (string * pyobj)) : string :=
             match ys with
             | [] => ""
             | (k', v') :: ys' =>
                 "," +:+ newline_indent (S level)
                 +:+ encode_basestring_ascii k' +:+ ": "
                 +:+ iterencode (S level) v' +:+ rest ys'
             end) kvs
      +:+ newline_indent level +:+ "}"
  end.

Definition dumps (o : pyobj) : string := iterencode 0 o.

(** ** JSON text: [json.loads(text)]

    The decoder of the [json] module on the values of [pyobj]: strings, arrays
    and objects.  A number, [true], [false] or [null] has no counterpart in
    [pyobj] and makes the decoder answer [None], as malformed text does; so
    does an escape [\uXXXX] of a character above 255. *)

(** The whitespace the decoder skips: space, tab, line feed, carriage return. *)
Definition json_ws (c : ascii) : bool :=
  let n := N_of_ascii c in
  ((n =? 32) || (n =? 9) || (n =? 10) || (n =? 13))%N.

Fixpoint skip_ws (s : string) : string :=
  match s with
  | EmptyString => ""
  | String c s' => if json_ws c then skip_ws s' else s
  end.

Definition hex_value (c : ascii) : option N :=
  let n := N_of_ascii c in
  (if (48 <=? n) && (n <=? 57) then Some (n - 48)
   else if (97 <=? n) && (n <=? 102) then Some (n - 87)
   else if (65 <=? n) && (n <=? 70) then Some (n - 55)
   else None)%N.

(** The character a one-letter escape stands for ([BACKSLASH]). *)
Definition unescape (c : ascii) : option ascii :=
  let n := N_of_ascii c in
  (if n =? 34 then Some dquote
   else if n =? 92 then Some backslash
   else if n =? 47 then Some "/"%char
   else if n =? 98 then Some "008"%char
   else if n =? 102 then Some "012"%char
   else if n =? 110 then Some newline
   else if n =? 114 then Some "013"%char
   else if n =? 116 then Some "009"%char
   else None)%N.

(** [scanstring], from the character after the opening quote: the decoded
    string and the text after the closing quote.  In strict mode a control
    character inside a string is an error. *)
Fixpoint scanstring (s : string) : option (string * string) :=
  match s with
  | EmptyString => None
  | String c s' =>
      if Ascii.eqb c dquote then Some ("", s')
      else if Ascii.eqb c backslash then
        match s' with
        | EmptyString => None
        | String e s'' =>
            if Ascii.eqb e "u" then
              match s'' with
              | String h1 (String h2 (String h3 (String h4 s3))) =>
                  d1 ← hex_value h1; d2 ← hex_value h2;
                  d3 ← hex_value h3; d4 ← hex_value h4;
                  let n := (((d1 * 16 + d2) * 16 + d3) * 16 + d4)%N in
                  if (n <? 256)%N then
                    '(t, r) ← scanstring s3; Some (String (ascii_of_N n) t, r)
                  else None
              | _ => None
              end
            else
              ch ← unescape e;
              '(t, r) ← scanstring s''; Some (String ch t, r)
        end
      else if (N_of_ascii c <? 32)%N then None
      else '(t, r) ← scanstring s'; Some (String c t, r)
  end.

(** [scan_once] with [JSONArray] and [JSONObject].  Each call consumes one
    unit of [fuel]; [JSONArray] and [JSONObject] start at the first
    element, after the opening bracket and the whitespace that follows it. *)
Fixpoint scan_once (fuel : nat) (s : string) : option (pyobj * string) :=
  match fuel with
  | O => None
  | S fuel' =>
      match s with
      | EmptyString => None
      | String c s' =>
          if Ascii.eqb c dquote then
            '(t, r) ← scanstring s'; Some (PStr t, r)
          else if Ascii.eqb c "[" then
            match skip_ws s' with
            | String "]" r => Some (PList [], r)
            | s1 => '(xs, r) ← JSONArray fuel' s1; Some (PList xs, r)
            end
          else if Ascii.eqb c "{" then
            match skip_ws s' with
            | String "}" r => Some (PDict [], r)
            | s1 =>
                '(pairs, r) ← JSONObject fuel' s1;
                Some (PDict (Dict.comprehension fst snd pairs), r)
            end
          else None
      end
  end
with JSONArray (fuel : nat) (s : string) : option (list pyobj * string) :=
  match fuel with
  | O => None
  | S fuel' =>
      '(value, r) ← scan_once fuel' s;
      match skip_ws r with
      | String "]" r' => Some ([value], r')
      | String "," r' =>
          '(values, r'') ← JSONArray fuel' (skip_ws r');
          Some (value :: values, r'')
      | _ => None
      end
  end
with JSONObject (fuel : nat) (s : string)
    : option (list (string * pyobj) * string) :=
  match fuel with
  | O => None
  | S fuel' =>
      match s with
      | String "034" s' =>
          '(key, r) ← scanstring s';
          match skip_ws r with
          | String ":" r1 =>
              '(value, r2) ← scan_once fuel' (skip_ws r1);
              match skip_ws r2 with
              | String "}" r' => Some ([(key, value)], r')
              | String "," r' =>
                  '(pairs, r'') ← JSONObject fuel' (skip_ws r');
                  Some ((key, value) :: pairs, r'')
              | _ => None
              end
          | _ => None
          end
      | _ => None
      end
  end.

(** [json.loads]: one value, surrounded by whitespace only.  The length of the
    text is fuel enough, every call of [scan_once] consuming a character. *)
Definition loads (text : string) : option pyobj :=
  '(o, r) ← scan_once (String.length text) (skip_ws text);
  match skip_ws r with
  | EmptyString => Some o
  | _ => None
  end.

(** ** The outside world and the commands that act on it *)

(** What the file system does when a text is to be written at a path: the
    text is written; or the file cannot be opened for writing (a missing
    directory, a missing permission) and nothing changes; or the file is
    opened and an error breaks the writing off (a full disk), leaving some
    content [remains] in the file.  [msg] is the message of the [OSError]. *)
Inductive write_outcome : Type :=
  | Written
  | Refused (msg : string)
  | Broken (msg : string) (remains : string).

Record World : Type := mkWorld {
  files : gmap string string;
  stdout : string;
  fs_write : string -> string -> write_outcome;
  stdout_encodes : string -> bool
}.

Definition with_files (fs : gmap string string) (w : World) : World :=
  {| files := fs; stdout := stdout w;
     fs_write := fs_write w; stdout_encodes := stdout_encodes w |}.

Definition with_stdout (out : string) (w : World) : World :=
  {| files := files w; stdout := out;
     fs_write := fs_write w; stdout_encodes := stdout_encodes w |}.

(** Every character of the text is ASCII (code point below 128). *)
Fixpoint is_ascii (s : string) : bool :=
  match s with
  | EmptyString => true
  | String c s' => (N_of_ascii c <? 128)%N && is_ascii s'
  end.

Definition io (A : Type) : Type := World -> World * result A.

#[global] Instance io_ret : MRet io := fun A a w => (w, Ok a).

#[global] Instance io_bind : MBind io := fun A B k m w =>
  match m w with
  | (w', Ok a) => k a w'
  | (w', Raise e) => (w', Raise e)
  end.

(** A computation without effect on the world. *)
Definition lift {A} (r : result A) : io A := fun w => (w, r).

(** [print(text)]: the text and a line feed go to standard output.  Every
    encoding of standard output has the ASCII characters; for another text
    the environment decides, and a text that cannot be encoded raises
    [UnicodeEncodeError] before anything of it is printed. *)
Definition print (text : string) : io unit := fun w =>
  if is_ascii text || stdout_encodes w text then
    (with_stdout (stdout w +:+ text +:+ String newline "") w, Ok tt)
  else
    (w, Raise (UnicodeEncodeError text)).

(** [path.write_text(text)]: the file is created or overwritten, unless the
    file system raises [OSError]. *)
Definition write_text (path text : string) : io unit := fun w =>
  match fs_write w path text with
  | Written => (with_files (<[path := text]> (files w)) w, Ok tt)
  | Refused msg => (w, Raise (OSError msg))
  | Broken msg remains =>
      (with_files (<[path := remains]> (files w)) w, Raise (OSError msg))
  end.

Definition write_config (config : dict pyobj) (output_path : string) : io unit :=
  write_text output_path (dumps (PDict [("servers", PDict config)])).

Fixpoint print_spaces (spaces : list SpaceServer) : io unit :=
  match spaces with
  | [] => mret tt
  | space :: rest =>
      print ("- " +:+ display_name space);;
      print ("  Space ID    : " +:+ space_id space);;
      print ("  Transport   : " +:+ transport space);;
      print ("  Entrypoint  : " +:+ entrypoint space);;
      print ("  Description : " +:+ description space +:+ String newline "");;
      print_spaces rest
  end.

Definition print_human_summary (spaces : list SpaceServer) : io unit :=
  print ("Registered Hugging Face Spaces with MCP support:"
         +:+ String newline "");;
  print_spaces spaces.

(** The arguments as [parse_args] returns them: [output] is
    [DEFAULT_CONFIG_PATH] and [include] is [None] when the option is absent,
    [include] is [Some []] for [--include] without a name. *)
Record Namespace : Type := mkNamespace {
  output : string;
  list_only : bool;
  include : option (list string)
}.

(** The first characters of the final message, outside the range of the
    string model, as the bytes of the source file. *)
Definition WROTE_MARK : string :=
  String "195" (String "162" (String "197" (String "147"
    (String "226" (String "128" (String "166" "")))))).

(** [main], from the parsed arguments on. *)
Definition main (args : Namespace) : io Z :=
  chosen_spaces ← lift (resolve_selection (include args));
  if list_only args then
    print_human_summary chosen_spaces;;
    mret 0%Z
  else
    config ← lift (build_combined_config chosen_spaces);
    write_config config (output args);;
    print (WROTE_MARK +:+ " Wrote MCP configuration with "
           +:+ pretty (length config) +:+ " server(s) to " +:+ output args);;
    print "   You can reference this file from Claude Desktop or VS Code's MCP settings.";;
    mret 0%Z.

(** [raise SystemExit(main())]: the exit status of the process.  An exception
    that reaches the top level ends the process with status 1. *)
Definition exit_status (r : result Z) : Z :=
  match r with
  | Ok code => code
  | Raise _ => 1%Z
  end.



(** ** Notions used to state the properties *)

(** The names of [names] without repetition, each at its first occurrence. *)
Fixpoint first_seen (names : list string) : list string :=
  match names with
  | [] => []
  | n :: rest => n :: filter (fun m => m ≠ n) (first_seen rest)
  end.

(** The keys of a dictionary after [d[k] = v], from the keys before. *)
Definition ins (k : string) (ks : list string) : list string :=
  if decide (k ∈ ks) then ks else ks ++ [k].

(** [needle] occurs in [hay]. *)
Definition contains (needle hay : string) : Prop :=
  exists pre post, hay = pre +:+ needle +:+ post.

(** Every character of the string is whitespace (so for the empty string). *)
Fixpoint all_space (s : string) : bool :=
  match s with
  | EmptyString => true
  | String c s' => isspace c && all_space s'
  end.

(** No character of the string is whitespace. *)
Fixpoint no_space (s : string) : bool :=
  match s with
  | EmptyString => true
  | String c s' => negb (isspace c) && no_space s'
  end.

(** Splitting on whitespace, as a relation: the text is whitespace only and
    has no token, or it is whitespace, then a first token (a longest run of
    characters that are not whitespace), then a rest that splits into the
    other tokens. *)
Inductive splits_into : string -> list string -> Prop :=
  | splits_done (ws : string) :
      all_space ws = true -> splits_into ws []
  | splits_token (ws t rest : string) (ts : list string) :
      all_space ws = true ->
      t ≠ "" -> no_space t = true ->
      (rest = "" \/ exists c rest', rest = String c rest' /\ isspace c = true) ->
      splits_into rest ts ->
      splits_into (ws +:+ t +:+ rest) (t :: ts).

(** The text of the summary: the lines of one entry, of the entries in their
    order, and the whole summary with its heading. *)
Definition entry_text (space : SpaceServer) : string :=
  "- " +:+ display_name space +:+ String newline ""
  +:+ "  Space ID    : " +:+ space_id space +:+ String newline ""
  +:+ "  Transport   : " +:+ transport space +:+ String newline ""
  +:+ "  Entrypoint  : " +:+ entrypoint space +:+ String newline ""
  +:+ "  Description : " +:+ description space
  +:+ String newline (String newline "").

Fixpoint entries_text (spaces : list SpaceServer) : string :=
  match spaces with
  | [] => ""
  | space :: rest => entry_text space +:+ entries_text rest
  end.

Definition summary_text (spaces : list SpaceServer) : string :=
  "Registered Hugging Face Spaces with MCP support:"
  +:+ String newline (String newline "") +:+ entries_text spaces.

(** A value as Python holds it: no dictionary has a key twice. *)
Unset Elimination Schemes.
Inductive wf : pyobj -> Prop :=
  | wf_str (s : string) : wf (PStr s)
  | wf_list (xs : list pyobj) : Forall wf xs -> wf (PList xs)
  | wf_dict (kvs : list (string * pyobj)) :
      NoDup (map fst kvs) -> Forall (fun kv => wf (snd kv)) kvs ->
      wf (PDict kvs).
Set Elimination Schemes.

(** The number of calls the decoder makes for a value. *)
Fixpoint size (o : pyobj) : nat :=
  match o with
  | PStr _ => 1
  | PList xs =>
      S ((fix sum (ys : list pyobj) : nat :=
            match ys with
            | [] => 0
            | y :: ys' => S (size y + sum ys')
            end) xs)
  | PDict kvs =>
      S ((fix sum (ys : list (string * pyobj)) : nat :=
            match ys with
            | [] => 0
            | kv :: ys' => S (size (snd kv) + sum ys')
            end) kvs)
  end.

Fixpoint sizes (xs : list pyobj) : nat :=
  match xs with
  | [] => 0
  | x :: xs' => S (size x + sizes xs')
  end.

Fixpoint item_sizes (kvs : list (string * pyobj)) : nat :=
  match kvs with
  | [] => 0
  | kv :: kvs' => S (size (snd kv) + item_sizes kvs')
  end.

(** The text of the elements of a list after the first, and of the items of
    a dictionary after the first, as [iterencode] writes them. *)
Fixpoint more_elements (level : nat) (xs : list pyobj) : string :=
  match xs with
  | [] => ""
  | x :: xs' =>
      "," +:+ newline_indent level +:+ iterencode level x
      +:+ more_elements level xs'
  end.

Fixpoint more_items (level : nat) (kvs : list (string * pyobj)) : string :=
  match kvs with
  | [] => ""
  | (k, v) :: kvs' =>
      "," +:+ newline_indent level +:+ encode_basestring_ascii k +:+ ": "
      +:+ iterencode level v +:+ more_items level kvs'
  end.

(** A value begins with a quote or an opening bracket. *)
Inductive opens_value : string -> Prop :=
  | opens_string (s : string) : opens_value (String dquote s)
  | opens_array (s : string) : opens_value (String "[" s)
  | opens_object (s : string) : opens_value (String "{" s).

(** The decoder reads the value [o] back from its text, whatever the
    indentation level and the text that follows, with fuel for the calls. *)
Definition decodes (o : pyobj) : Prop :=
  forall level rest fuel,
    size o <= fuel ->
    scan_once fuel (iterencode level o +:+ rest) = Some (o, rest).

(** A token of [str.split()]: not empty and without whitespace. *)
Definition token (t : string) : Prop := t ≠ "" /\ no_space t = true.

(** The shape of a server entry in the output file: a remote server with its
    type and URL, or a local server with its command and arguments. *)
Definition server_schema (o : pyobj) : Prop :=
  (exists kind url,
     kind ∈ ["http"; "ws"]
     /\ o = PDict [("type", PStr kind); ("url", PStr url)])
  \/ (exists command args,
        token command /\ Forall token args
        /\ o = PDict [("command", PStr command);
                      ("args", PList (map PStr args))]).

(** The text has only printable ASCII characters and line feeds. *)
Definition plain_char (c : ascii) : bool :=
  let n := N_of_ascii c in
  ((32 <=? n) && (n <=? 126) || (n =? 10))%N.

Fixpoint plain_text (s : string) : bool :=
  match s with
  | EmptyString => true
  | String c s' => plain_char c && plain_text s'
  end.

(** The first line that [main] prints after writing a mapping of
    [config_size] servers to [output_path], and the two lines together. *)
Definition wrote_line (config_size : nat) (output_path : string) : string :=
  WROTE_MARK +:+ " Wrote MCP configuration with " +:+ pretty config_size
  +:+ " server(s) to " +:+ output_path.

Definition wrote_text (config_size : nat) (output_path : string) : string :=
  (wrote_line config_size output_path +:+ String newline "")
  +:+ "   You can reference this file from Claude Desktop or VS Code's MCP settings."
  +:+ String newline "".

(** The text of a servers document, as [write_config] hands it to the file
    system. *)
Definition config_text (config : dict pyobj) : string :=
  dumps (PDict [("servers", PDict config)]).

(** What a run does once the selection has merged into [config], by what
    the environment decides. *)
Definition write_run (config : dict pyobj) (output_path : string) (w : World)
    : World * result Z :=
  match fs_write w output_path (config_text config) with
  | Refused msg => (w, Raise (OSError msg))
  | Broken msg remains =>
      (with_files (<[output_path := remains]> (files w)) w,
       Raise (OSError msg))
  | Written =>
      if stdout_encodes w (wrote_line (length config) output_path) then
        ({| files := <[output_path := config_text config]> (files w);
            stdout := stdout w +:+ wrote_text (length config) output_path;
            fs_write := fs_write w;
            stdout_encodes := stdout_encodes w |}, Ok 0%Z)
      else
        (with_files (<[output_path := config_text config]> (files w)) w,
         Raise (UnicodeEncodeError (wrote_line (length config) output_path)))
  end.

(** Every text of the entry is ASCII. *)
Definition ascii_entry (space : SpaceServer) : bool :=
  is_ascii (space_id space) && is_ascii (display_name space)
  && is_ascii (transport space) && is_ascii (entrypoint space)
  && is_ascii (description space).

(** A world with the files [fs] and nothing printed, in which every write is
    accepted and standard output encodes every text. *)
Definition quiet_world (fs : gmap string string) : World :=
  {| files := fs; stdout := "";
     fs_write := fun _ _ => Written; stdout_encodes := fun _ => true |}.

(** The entry renders to a fragment. *)
Definition renders (space : SpaceServer) : Prop :=
  exists fragment, to_config space = Ok fragment.

(** * Properties *)

(** ** Strings *)

Lemma append_assoc (a b c : string) : (a +:+ b) +:+ c = a +:+ b +:+ c.
Proof. induction a as [|x a IH]; simpl; [done|]. by rewrite IH. Qed.

Lemma append_nil_r (a : string) : a +:+ "" = a.
Proof. induction a as [|x a IH]; simpl; [done|]. by rewrite IH. Qed.

Lemma contains_refl (s : string) : contains s s.
Proof. exists "", "". by rewrite append_nil_r. Qed.

Lemma contains_app_l (n a b : string) : contains n a -> contains n (a +:+ b).
Proof.
  intros (pre & post & ->). exists pre, (post +:+ b).
  by rewrite !append_assoc.
Qed.

Lemma contains_app_r (n a b : string) : contains n b -> contains n (a +:+ b).
Proof.
  intros (pre & post & ->). exists (a +:+ pre), post.
  by rewrite !append_assoc.
Qed.

Lemma contains_join (sep n : string) (parts : list string) :
  n ∈ parts -> contains n (join sep parts).
Proof.
  induction parts as [|p ps IH]; [by intros ?%elem_of_nil|].
  intros [->|Hin]%elem_of_cons.
  - destruct ps; [apply contains_refl|].
    apply contains_app_l, contains_refl.
  - destruct ps as [|q ps]; [by apply elem_of_nil in Hin|].
    change (contains n (p +:+ sep +:+ join sep (q :: ps))).
    by apply contains_app_r, contains_app_r, IH.
Qed.

(** ** Splitting on whitespace *)

Lemma split_scan_token (t s : string) : split_scan (Some t) s ≠ [].
Proof.
  revert t. induction s as [|c s IH]; intros t; simpl; [done|].
  destruct (isspace c); [done|apply IH].
Qed.

Lemma split_nil_iff (s : string) : split s = [] <-> all_space s = true.
Proof.
  unfold split. induction s as [|c s IH]; simpl; [done|].
  destruct (isspace c); simpl; [done|].
  split; [|done]. intros H. by apply split_scan_token in H.
Qed.

Lemma splits_into_space (c : ascii) (s : string) (ts : list string) :
  isspace c = true -> splits_into s ts -> splits_into (String c s) ts.
Proof.
  intros Hc [ws Hws|ws t rest ts' Hws Ht Hns Hrest Hsplit].
  - apply splits_done. simpl. by rewrite Hc.
  - change (splits_into (String c ws +:+ t +:+ rest) (t :: ts')).
    apply splits_token; try done. simpl. by rewrite Hc.
Qed.

(** The scan meets the relation, from both of its states. *)
Lemma split_scan_spec (s : string) :
  splits_into s (split_scan None s)
  /\ forall t,
       exists t' rest,
         s = t' +:+ rest
         /\ no_space t' = true
         /\ (rest = "" \/ exists c rest', rest = String c rest' /\ isspace c = true)
         /\ split_scan (Some t) s = (t +:+ t') :: split_scan None rest
         /\ splits_into rest (split_scan None rest).
Proof.
  induction s as [|c s [IHnone IHtok]].
  - split; [by apply splits_done|].
    intros t. exists "", "". rewrite (append_nil_r t). simpl.
    split_and!; try done; [by left|by apply splits_done].
  - assert (splits_into (String c s) (split_scan None (String c s))) as Hnone.
    { simpl. destruct (isspace c) eqn:Hc; [by apply splits_into_space|].
      destruct (IHtok (String c "")) as (t' & rest & -> & Hns & Hrest & -> & Hsp).
      change (splits_into ("" +:+ String c t' +:+ rest)
                (String c t' :: split_scan None rest)).
      apply splits_token; try done. simpl. by rewrite Hc. }
    split; [done|]. intros t. simpl split_scan at 1.
    destruct (isspace c) eqn:Hc.
    + exists "", (String c s). rewrite (append_nil_r t).
      split_and!; try done; [right; by exists c, s|].
      simpl. by rewrite Hc.
    + destruct (IHtok (t +:+ String c "")) as (t' & rest & -> & Hns & Hrest & -> & Hsp).
      exists (String c t'), rest. split_and!; try done.
      * simpl. by rewrite Hc.
      * by rewrite append_assoc.
Qed.

Lemma split_spec (s : string) : splits_into s (split s).
Proof. apply split_scan_spec. Qed.

Lemma split_scan_leading_space (ws s : string) :
  all_space ws = true -> split_scan None (ws +:+ s) = split_scan None s.
Proof.
  induction ws as [|c ws IH]; [done|]. simpl.
  intros [Hc Hws]%andb_true_iff. rewrite Hc. by apply IH.
Qed.

Lemma split_scan_trailing_space (tok : option string) (s ws : string) :
  all_space ws = true -> split_scan tok (s +:+ ws) = split_scan tok s.
Proof.
  intros Hws. revert tok. induction s as [|c s IH]; intros tok.
  - change ("" +:+ ws) with ws. destruct tok as [t|].
    + destruct ws as [|c ws]; [done|]. simpl in *.
      apply andb_true_iff in Hws as [Hc Hws]. rewrite Hc. f_equal.
      by apply split_nil_iff.
    + by apply split_nil_iff.
  - simpl. destruct tok as [t|]; destruct (isspace c); by rewrite ?IH.
Qed.

(** Inside a token the scan reads up to the next whitespace. *)
Lemma split_scan_in_token (t rest acc : string) :
  no_space t = true ->
  (rest = "" \/ exists c rest', rest = String c rest' /\ isspace c = true) ->
  split_scan (Some acc) (t +:+ rest) = (acc +:+ t) :: split_scan None rest.
Proof.
  intros Ht Hrest. revert acc. induction t as [|c t IH]; intros acc.
  - rewrite append_nil_r. change ("" +:+ rest) with rest.
    destruct Hrest as [->|(c & rest' & -> & Hc)]; [done|].
    simpl. by rewrite Hc.
  - simpl in Ht. apply andb_true_iff in Ht as [Hc Ht].
    apply negb_true_iff in Hc. simpl. rewrite Hc, IH by done.
    by rewrite append_assoc.
Qed.

Lemma splits_into_unique (s : string) (ts : list string) :
  splits_into s ts -> ts = split s.
Proof.
  unfold split.
  induction 1 as [ws Hws|ws t rest ts Hws Ht Hns Hrest _ IH].
  - symmetry. by apply split_nil_iff.
  - rewrite split_scan_leading_space by done.
    destruct t as [|c t]; [done|]. simpl in Hns.
    apply andb_true_iff in Hns as [Hc Hns]. apply negb_true_iff in Hc.
    simpl. rewrite Hc, split_scan_in_token by done. by rewrite IH.
Qed.

Lemma splits_into_tokens (s : string) (ts : list string) :
  splits_into s ts -> Forall token ts.
Proof.
  induction 1 as [ws Hws|ws t rest ts Hws Ht Hns Hrest _ IH];
    constructor; [by split|done].
Qed.

Lemma splits_into_join (ts : list string) :
  Forall token ts -> splits_into (join " " ts) ts.
Proof.
  induction 1 as [|t ts [Ht Hns] Hts IH]; [by apply splits_done|].
  destruct ts as [|u ts].
  - assert (splits_into ("" +:+ t +:+ "") [t]) as Hone
      by (apply splits_token;
            [done|done|done|by left|by apply splits_done]).
    change ("" +:+ t +:+ "") with (t +:+ "") in Hone.
    by rewrite append_nil_r in Hone.
  - change (splits_into ("" +:+ t +:+ String " " (join " " (u :: ts)))
              (t :: u :: ts)).
    apply splits_token; [done|done|done| |by apply splits_into_space].
    right. by eexists _, _.
Qed.

(** ** Dictionaries *)

Section DictFacts.
Context {V : Type}.
Implicit Types (d : dict V) (k : string) (v : V).

Lemma get_set_eq k v d : Dict.get (Dict.set k v d) k = Some v.
Proof.
  induction d as [|[k' v'] d IH]; simpl.
  - by rewrite String.eqb_refl.
  - destruct (String.eqb k k') eqn:E; simpl; rewrite E; [done|apply IH].
Qed.

Lemma get_set_ne k k' v d :
  k ≠ k' -> Dict.get (Dict.set k v d) k' = Dict.get d k'.
Proof.
  intros Hne. induction d as [|[k0 v0] d IH]; simpl.
  - by apply String.eqb_neq in Hne; rewrite String.eqb_sym, Hne.
  - destruct (String.eqb k k0) eqn:E; simpl; [|by rewrite IH].
    apply String.eqb_eq in E as <-.
    by apply String.eqb_neq in Hne; rewrite String.eqb_sym, Hne.
Qed.

Lemma get_None_keys d k : Dict.get d k = None <-> k ∉ Dict.keys d.
Proof.
  induction d as [|[k' v'] d IH]; simpl.
  - split; [intros _; apply not_elem_of_nil|done].
  - rewrite not_elem_of_cons.
    destruct (String.eqb_spec k k') as [->|Hne]; [split; [done|tauto]|].
    rewrite IH. tauto.
Qed.

Lemma mem_keys d k : Dict.mem d k = true <-> k ∈ Dict.keys d.
Proof.
  unfold Dict.mem. destruct (Dict.get d k) eqn:E.
  - split; [intros _|done].
    destruct (decide (k ∈ Dict.keys d)) as [|Hn]; [done|].
    apply get_None_keys in Hn. congruence.
  - apply get_None_keys in E. split; [done|]. by intros.
Qed.

Lemma mem_false_keys d k : Dict.mem d k = false <-> k ∉ Dict.keys d.
Proof. rewrite <- mem_keys. by destruct (Dict.mem d k). Qed.

Lemma set_fresh k v d : k ∉ Dict.keys d -> Dict.set k v d = d ++ [(k, v)].
Proof.
  induction d as [|[k' v'] d IH]; simpl; [done|].
  intros [Hne Hk]%not_elem_of_cons.
  apply String.eqb_neq in Hne. rewrite Hne. by rewrite IH.
Qed.

Lemma keys_set k v d : Dict.keys (Dict.set k v d) = ins k (Dict.keys d).
Proof.
  unfold ins, Dict.keys. induction d as [|[k' v'] d IH]; simpl.
  - done.
  - destruct (String.eqb_spec k k') as [->|Hne]; simpl.
    + by rewrite decide_True by apply list_elem_of_here.
    + rewrite IH. destruct (decide (k ∈ map fst d)) as [Hin|Hin].
      * by rewrite decide_True by (by apply list_elem_of_further).
      * by rewrite decide_False by (rewrite not_elem_of_cons; done).
Qed.

Lemma update_singleton d k v : Dict.update d [(k, v)] = Dict.set k v d.
Proof. done. Qed.

End DictFacts.

Lemma elem_of_ins (k x : string) (ks : list string) :
  x ∈ ins k ks <-> x = k \/ x ∈ ks.
Proof.
  unfold ins. destruct (decide (k ∈ ks)).
  - naive_solver.
  - rewrite elem_of_app, list_elem_of_singleton. naive_solver.
Qed.

Lemma NoDup_ins (k : string) (ks : list string) : NoDup ks -> NoDup (ins k ks).
Proof.
  unfold ins. intros Hnd. destruct (decide (k ∈ ks)) as [|Hn]; [done|].
  apply NoDup_app. split_and!; [done| |apply NoDup_singleton].
  intros x Hx ->%list_elem_of_singleton. done.
Qed.

Lemma filter_ne_absent (n : string) (l : list string) :
  n ∉ l -> filter (fun m => m ≠ n) l = l.
Proof.
  induction l as [|x l IH]; [done|].
  intros [Hne Hn]%not_elem_of_cons.
  rewrite filter_cons_True by done. by rewrite IH.
Qed.

Lemma first_seen_NoDup_id (names : list string) :
  NoDup names -> first_seen names = names.
Proof.
  induction 1 as [|n names Hn Hnd IH]; simpl; [done|].
  rewrite IH. by rewrite filter_ne_absent.
Qed.

Lemma elem_of_first_seen (x : string) (names : list string) :
  x ∈ first_seen names <-> x ∈ names.
Proof.
  induction names as [|n names IH]; simpl; [done|].
  rewrite !elem_of_cons, list_elem_of_filter, IH.
  destruct (decide (x = n)); naive_solver.
Qed.

Lemma NoDup_first_seen (names : list string) : NoDup (first_seen names).
Proof.
  induction names as [|n names IH]; simpl; [constructor|].
  constructor.
  - rewrite list_elem_of_filter. naive_solver.
  - by apply NoDup_filter.
Qed.

(** Inserting the names one after the other lists them at their first
    occurrence. *)
Lemma fold_ins_first_seen (names acc : list string) :
  fold_left (fun ks k => ins k ks) names acc
  = acc ++ filter (fun m => m ∉ acc) (first_seen names).
Proof.
  revert acc. induction names as [|n names IH]; intros acc; simpl.
  - by rewrite app_nil_r.
  - rewrite IH. unfold ins. destruct (decide (n ∈ acc)) as [Hin|Hin].
    + rewrite filter_cons_False by naive_solver.
      f_equal. rewrite list_filter_filter. apply list_filter_iff.
      intros x. naive_solver.
    + rewrite filter_cons_True by done.
      rewrite <- app_assoc. simpl. do 2 f_equal.
      rewrite list_filter_filter. apply list_filter_iff.
      intros x. rewrite not_elem_of_app, list_elem_of_singleton. naive_solver.
Qed.

Section Comprehension.
Context {A V : Type} (key : A -> string) (val : A -> V).

Lemma keys_fold_set (xs : list A) (acc : dict V) :
  Dict.keys (fold_left (fun acc x => Dict.set (key x) (val x) acc) xs acc)
  = fold_left (fun ks k => ins k ks) (map key xs) (Dict.keys acc).
Proof.
  revert acc. induction xs as [|x xs IH]; intros acc; simpl; [done|].
  by rewrite IH, keys_set.
Qed.

Lemma get_fold_set_elem (xs : list A) (acc : dict V) k v :
  Dict.get (fold_left (fun acc x => Dict.set (key x) (val x) acc) xs acc) k
  = Some v ->
  (exists x, x ∈ xs /\ key x = k /\ val x = v) \/ Dict.get acc k = Some v.
Proof.
  revert acc. induction xs as [|x xs IH]; intros acc; simpl; [by right|].
  intros [(y & Hy & Hk & Hv)|Hget]%IH.
  - left. exists y. by rewrite elem_of_cons; auto.
  - destruct (decide (key x = k)) as [<-|Hne].
    + rewrite get_set_eq in Hget. left. exists x.
      rewrite elem_of_cons. naive_solver.
    + rewrite get_set_ne in Hget by done. by right.
Qed.

Lemma keys_comprehension (xs : list A) :
  Dict.keys (Dict.comprehension key val xs) = first_seen (map key xs).
Proof.
  unfold Dict.comprehension. rewrite keys_fold_set. simpl.
  rewrite fold_ins_first_seen. simpl.
  induction (first_seen (map key xs)) as [|n l IH]; [done|].
  rewrite filter_cons_True by apply not_elem_of_nil. by f_equal.
Qed.

Lemma get_comprehension_elem (xs : list A) k v :
  Dict.get (Dict.comprehension key val xs) k = Some v ->
  exists x, x ∈ xs /\ key x = k /\ val x = v.
Proof. intros [?|?]%get_fold_set_elem; [done|discriminate]. Qed.

Lemma mem_comprehension (xs : list A) k :
  Dict.mem (Dict.comprehension key val xs) k = true <-> k ∈ map key xs.
Proof. by rewrite mem_keys, keys_comprehension, elem_of_first_seen. Qed.

End Comprehension.

Lemma filter_all_pass {A} (P : A -> Prop) `{!forall x, Decision (P x)}
    (l : list A) :
  Forall P l -> filter P l = l.
Proof.
  induction 1 as [|x l Hx _ IH]; [done|].
  rewrite filter_cons_True by done. by rewrite IH.
Qed.

Lemma filter_none_pass {A} (P : A -> Prop) `{!forall x, Decision (P x)}
    (l : list A) :
  Forall (fun x => ~ P x) l -> filter P l = [].
Proof.
  induction 1 as [|x l Hx _ IH]; [done|].
  by rewrite filter_cons_False.
Qed.

(** ** The transform *)

Lemma to_config_Ok_inv (self : SpaceServer) (fragment : dict pyobj) :
  to_config self = Ok fragment ->
  exists server_config, fragment = [(display_name self, server_config)].
Proof.
  unfold to_config.
  destruct (if String.eqb (transport self) "http" then _ else _)
    as [server_config|e]; simpl; [|done].
  intros [= <-]. by exists server_config.
Qed.

Lemma renders_inv (self : SpaceServer) :
  renders self ->
  exists server_config,
    to_config self = Ok [(display_name self, server_config)].
Proof.
  intros [fragment Hf]. destruct (to_config_Ok_inv _ _ Hf) as [c ->].
  by exists c.
Qed.

(** ** The merge loop *)

Lemma mapM_result_cons {A B} (f : A -> result B) (x : A) (l : list A) :
  mapM f (x :: l) = (y ← f x; k ← mapM f l; Ok (y :: k)).
Proof. reflexivity. Qed.

Lemma build_combined_loop_succeeds (spaces : list SpaceServer)
    (combined : dict pyobj) :
  Forall renders spaces ->
  exists config, build_combined_loop combined spaces = Ok config.
Proof.
  intros Hall. revert combined.
  induction Hall as [|space rest [fragment Hf] _ IH]; intros combined; simpl.
  - by exists combined.
  - rewrite Hf. simpl. apply IH.
Qed.

Lemma build_combined_loop_all_render (spaces : list SpaceServer)
    (combined config : dict pyobj) :
  build_combined_loop combined spaces = Ok config -> Forall renders spaces.
Proof.
  revert combined. induction spaces as [|space rest IH]; intros combined;
    simpl; [by constructor|].
  destruct (to_config space) as [fragment|e] eqn:Hf; simpl; [|done].
  intros Hloop. constructor; [by exists fragment|by eapply IH].
Qed.

Lemma build_combined_loop_keys (spaces : list SpaceServer)
    (combined config : dict pyobj) :
  build_combined_loop combined spaces = Ok config ->
  Dict.keys config
  = fold_left (fun ks k => ins k ks) (map display_name spaces)
      (Dict.keys combined).
Proof.
  revert combined. induction spaces as [|space rest IH]; intros combined;
    simpl; [by intros [= <-]|].
  destruct (to_config space) as [fragment|e] eqn:Hf; simpl; [|done].
  destruct (to_config_Ok_inv _ _ Hf) as [c ->].
  intros Hloop%IH. by rewrite Hloop, update_singleton, keys_set.
Qed.

Lemma build_combined_loop_get_other (spaces : list SpaceServer)
    (combined config : dict pyobj) (k : string) :
  build_combined_loop combined spaces = Ok config ->
  (forall space, space ∈ spaces -> display_name space ≠ k) ->
  Dict.get config k = Dict.get combined k.
Proof.
  revert combined. induction spaces as [|space rest IH]; intros combined;
    simpl; [by intros [= <-]|].
  destruct (to_config space) as [fragment|e] eqn:Hf; simpl; [|done].
  destruct (to_config_Ok_inv _ _ Hf) as [c ->].
  intros Hloop Hne. rewrite (IH _ Hloop).
  - rewrite update_singleton. apply get_set_ne, Hne, list_elem_of_here.
  - intros s Hs. by apply Hne, list_elem_of_further.
Qed.

Lemma build_combined_loop_last_wins (pre post : list SpaceServer)
    (space : SpaceServer) (combined config : dict pyobj) :
  build_combined_loop combined (pre ++ space :: post) = Ok config ->
  (forall later, later ∈ post -> display_name later ≠ display_name space) ->
  exists server_config,
    to_config space = Ok [(display_name space, server_config)]
    /\ Dict.get config (display_name space) = Some server_config.
Proof.
  revert combined. induction pre as [|p pre IH]; intros combined; simpl.
  - destruct (to_config space) as [fragment|e] eqn:Hf; simpl; [|done].
    destruct (to_config_Ok_inv _ _ Hf) as [c ->].
    intros Hloop Hne. exists c. split; [done|].
    rewrite (build_combined_loop_get_other _ _ _ _ Hloop Hne).
    rewrite update_singleton. apply get_set_eq.
  - destruct (to_config p) as [fragment|e]; simpl; [|done]. apply IH.
Qed.

Lemma build_combined_loop_distinct (spaces : list SpaceServer)
    (combined config : dict pyobj) :
  build_combined_loop combined spaces = Ok config ->
  NoDup (Dict.keys combined ++ map display_name spaces) ->
  exists fragments,
    mapM to_config spaces = Ok fragments
    /\ config = combined ++ concat fragments.
Proof.
  revert combined. induction spaces as [|space rest IH]; intros combined;
    simpl.
  - intros [= <-] _. exists []. by rewrite app_nil_r.
  - destruct (to_config space) as [fragment|e] eqn:Hf; simpl; [|done].
    destruct (to_config_Ok_inv _ _ Hf) as [c ->].
    rewrite update_singleton. intros Hloop Hnd.
    assert (display_name space ∉ Dict.keys combined) as Hfresh.
    { apply NoDup_app in Hnd as (_ & Hdisj & _). intros Hin.
      apply (Hdisj _ Hin), list_elem_of_here. }
    rewrite set_fresh in Hloop by done.
    destruct (IH _ Hloop) as (fragments & Hm & ->).
    { unfold Dict.keys. rewrite map_app. simpl. rewrite <- app_assoc. done. }
    exists ([(display_name space, c)] :: fragments). split.
    + change (mapM to_config rest
              ≫= (fun k => Ok ([(display_name space, c)] :: k))
              = Ok ([(display_name space, c)] :: fragments)).
      by rewrite Hm.
    + simpl. by rewrite <- app_assoc.
Qed.

Lemma build_combined_loop_first_failure (pre post : list SpaceServer)
    (space : SpaceServer) (combined : dict pyobj) (e : exn) :
  Forall renders pre ->
  to_config space = Raise e ->
  build_combined_loop combined (pre ++ space :: post) = Raise e.
Proof.
  intros Hpre Hf. revert combined.
  induction Hpre as [|p pre [fragment Hp] _ IH]; intros combined; simpl.
  - by rewrite Hf.
  - rewrite Hp. simpl. apply IH.
Qed.

Lemma build_combined_loop_failure (spaces : list SpaceServer)
    (space : SpaceServer) (combined : dict pyobj) :
  space ∈ spaces ->
  ~ renders space ->
  exists e, build_combined_loop combined spaces = Raise e.
Proof.
  intros Hin Hbad. revert combined.
  induction spaces as [|s rest IH]; intros combined;
    [by apply elem_of_nil in Hin|]. simpl.
  destruct (to_config s) as [fragment|e] eqn:Hs; simpl; [|by exists e].
  apply elem_of_cons in Hin as [->|Hin]; [|by apply IH].
  destruct Hbad. by exists fragment.
Qed.

Lemma build_combined_config_keys (spaces : list SpaceServer)
    (config : dict pyobj) :
  build_combined_config spaces = Ok config ->
  Dict.keys config = first_seen (map display_name spaces).
Proof.
  intros Hk%build_combined_loop_keys. rewrite Hk, fold_ins_first_seen. simpl.
  apply filter_all_pass, Forall_forall. intros x _. apply not_elem_of_nil.
Qed.

Lemma build_combined_config_size (spaces : list SpaceServer)
    (config : dict pyobj) :
  NoDup (map display_name spaces) ->
  build_combined_config spaces = Ok config ->
  length config = length spaces.
Proof.
  intros Hnd Hk%build_combined_config_keys.
  rewrite first_seen_NoDup_id in Hk by done.
  apply (f_equal length) in Hk. unfold Dict.keys in Hk.
  by rewrite !length_map in Hk.
Qed.

(** ** The catalogue *)

Lemma catalogue_names :
  map display_name POPULAR_SPACES
  = ["everything"; "llama-3-8b-chat"; "stable-diffusion"; "phi-3-vision"].
Proof. reflexivity. Qed.

Lemma catalogue_names_NoDup : NoDup (map display_name POPULAR_SPACES).
Proof. rewrite catalogue_names. compute_done. Qed.

Lemma catalogue_renders : Forall renders POPULAR_SPACES.
Proof. repeat constructor; eexists; vm_compute; reflexivity. Qed.

(** ** The selector *)

Lemma getitem_Ok {V} (d : dict V) (k : string) (v : V) :
  Dict.getitem d k = Ok v <-> Dict.get d k = Some v.
Proof. unfold Dict.getitem. destruct (Dict.get d k); naive_solver. Qed.

Lemma mapM_getitem_Ok {V} (d : dict V) (names : list string) (vs : list V) :
  mapM (Dict.getitem d) names = Ok vs ->
  Forall2 (fun name v => Dict.get d name = Some v) names vs.
Proof.
  revert vs. induction names as [|n names IH]; intros vs.
  - intros [= <-]. constructor.
  - rewrite mapM_result_cons.
    destruct (Dict.getitem d n) as [v|e] eqn:Hn; simpl; [|done].
    destruct (mapM (Dict.getitem d) names) as [vs'|e]; simpl; [|done].
    intros [= <-]. constructor; [by apply getitem_Ok|by apply IH].
Qed.

Lemma mapM_getitem_present {V} (d : dict V) (names : list string) :
  Forall (fun name => name ∈ Dict.keys d) names ->
  exists vs, mapM (Dict.getitem d) names = Ok vs.
Proof.
  induction 1 as [|n names Hn _ [vs IH]]; [by exists []|].
  rewrite mapM_result_cons, IH.
  destruct (Dict.get d n) as [v|] eqn:Hget.
  - apply getitem_Ok in Hget. rewrite Hget. simpl. by eexists.
  - by apply get_None_keys in Hget.
Qed.

(** The names of the request that the catalogue does not have. *)
Lemma unknown_names (selection : list string) :
  filter (fun name =>
            Dict.mem (Dict.comprehension display_name (fun space => space)
                        POPULAR_SPACES) name = false) selection
  = filter (fun name => name ∉ map display_name POPULAR_SPACES) selection.
Proof.
  apply list_filter_iff. intros name.
  by rewrite mem_false_keys, keys_comprehension, elem_of_first_seen.
Qed.

Lemma resolve_selection_chosen (selection : option (list string))
    (chosen : list SpaceServer) :
  resolve_selection selection = Ok chosen ->
  Forall (fun space => space ∈ POPULAR_SPACES) chosen
  /\ (forall names, selection = Some names -> names ≠ [] ->
        map display_name chosen = names).
Proof.
  unfold resolve_selection. destruct selection as [[|n names]|].
  - intros [= <-]. split; [by apply Forall_forall|by intros ? [= <-]].
  - set (available := Dict.comprehension _ _ _).
    destruct (filter _ (n :: names)); [|done].
    intros Hall%mapM_getitem_Ok.
    assert (Forall2 (fun name space =>
              space ∈ POPULAR_SPACES /\ display_name space = name)
              (n :: names) chosen) as Hall'.
    { eapply Forall2_impl; [exact Hall|]. intros name space Hget.
      apply get_comprehension_elem in Hget as (x & Hx & Hk & ->). done. }
    clear Hall. split.
    + apply Forall2_Forall_r with (Q := fun space => space ∈ POPULAR_SPACES)
        in Hall'; [done|]. apply Forall_forall. naive_solver.
    + intros ? [= <-] _.
      induction Hall' as [|?? ?? [_ <-] _ IH]; simpl; [done|by f_equal].
  - intros [= <-]. split; [by apply Forall_forall|done].
Qed.

Lemma resolve_selection_known (selection : list string) :
  selection ≠ [] ->
  Forall (fun name => name ∈ map display_name POPULAR_SPACES) selection ->
  exists chosen, resolve_selection (Some selection) = Ok chosen.
Proof.
  intros Hne Hall. unfold resolve_selection.
  destruct selection as [|n names]; [done|].
  rewrite unknown_names, filter_none_pass.
  - apply mapM_getitem_present.
    eapply Forall_impl; [exact Hall|]. cbv beta. intros name Hname.
    by rewrite keys_comprehension, elem_of_first_seen.
  - eapply Forall_impl; [exact Hall|]. cbv beta. tauto.
Qed.

Lemma resolve_selection_unknown (selection : list string) :
  filter (fun name => name ∉ map display_name POPULAR_SPACES) selection ≠ [] ->
  resolve_selection (Some selection)
  = Raise (SystemExit
      ("Unknown space(s): "
       +:+ join ", "
             (filter (fun name => name ∉ map display_name POPULAR_SPACES)
                selection)
       +:+ ". Valid options: "
       +:+ join ", " (sorted (map display_name POPULAR_SPACES)))).
Proof.
  intros Hunknown. unfold resolve_selection.
  destruct selection as [|n names]; [done|].
  rewrite unknown_names.
  destruct (filter _ (n :: names)) as [|u us]; [done|].
  rewrite keys_comprehension.
  by rewrite (first_seen_NoDup_id _ catalogue_names_NoDup).
Qed.

(** ** The commands *)

Lemma lift_bind {A B} (r : result A) (k : A -> io B) (w : World) :
  (lift r ≫= k) w
  = match r with
    | Ok a => k a w
    | Raise e => (w, Raise e)
    end.
Proof. by destruct r. Qed.

Lemma is_ascii_app (a b : string) :
  is_ascii (a +:+ b) = is_ascii a && is_ascii b.
Proof.
  induction a as [|c a IH]; [done|]. simpl. by rewrite IH, andb_assoc.
Qed.

(** Printing an ASCII text succeeds, whatever standard output encodes. *)
Lemma print_bind {B} (text : string) (k : io B) (w : World) :
  is_ascii text = true ->
  (print text;; k) w
  = k (with_stdout (stdout w +:+ text +:+ String newline "") w).
Proof.
  intros Hascii.
  change ((print text;; k) w)
    with (match print text w with
          | (w', Ok _) => k w'
          | (w', Raise e) => (w', Raise e)
          end).
  unfold print. by rewrite Hascii.
Qed.

Lemma print_spaces_text (spaces : list SpaceServer) (w : World) :
  Forall (fun space => ascii_entry space = true) spaces ->
  print_spaces spaces w
  = (with_stdout (stdout w +:+ entries_text spaces) w, Ok tt).
Proof.
  intros Hall. revert w.
  induction Hall as [|space rest Hspace _ IH]; intros w.
  - destruct w as [fs out fsw enc]. unfold with_stdout. simpl.
    by rewrite append_nil_r.
  - unfold ascii_entry in Hspace.
    apply andb_true_iff in Hspace as [Hspace Hdesc].
    apply andb_true_iff in Hspace as [Hspace Hentry].
    apply andb_true_iff in Hspace as [Hspace Htrans].
    apply andb_true_iff in Hspace as [Hid Hname].
    cbn [print_spaces].
    rewrite !print_bind, IH
      by (rewrite ?is_ascii_app, ?Hid, ?Hname, ?Htrans, ?Hentry, ?Hdesc;
          reflexivity).
    unfold with_stdout. cbn [files stdout fs_write stdout_encodes].
    do 2 f_equal. cbn [entries_text]. unfold entry_text.
    rewrite !append_assoc. reflexivity.
Qed.

Lemma print_human_summary_text (spaces : list SpaceServer) (w : World) :
  Forall (fun space => ascii_entry space = true) spaces ->
  print_human_summary spaces w
  = (with_stdout (stdout w +:+ summary_text spaces) w, Ok tt).
Proof.
  intros Hall. unfold print_human_summary.
  rewrite print_bind, print_spaces_text by done.
  unfold with_stdout. cbn [files stdout fs_write stdout_encodes].
  do 2 f_equal. unfold summary_text.
  rewrite !append_assoc. reflexivity.
Qed.

(** The texts of the catalogue are ASCII, and so are those of the entries
    the selector returns. *)
Lemma catalogue_ascii :
  Forall (fun space => ascii_entry space = true) POPULAR_SPACES.
Proof. repeat constructor. Qed.

Lemma resolved_entries_ascii (selection : option (list string))
    (chosen : list SpaceServer) :
  resolve_selection selection = Ok chosen ->
  Forall (fun space => ascii_entry space = true) chosen.
Proof.
  intros [Hin _]%resolve_selection_chosen.
  rewrite Forall_forall in Hin. apply Forall_forall. intros space Hspace.
  exact (proj1 (Forall_forall _ _) catalogue_ascii _ (Hin _ Hspace)).
Qed.

Lemma main_resolved (args : Namespace) (chosen : list SpaceServer) (w : World) :
  resolve_selection (include args) = Ok chosen ->
  main args w
  = if list_only args then
      (print_human_summary chosen;; mret 0%Z) w
    else
      (config ← lift (build_combined_config chosen);
       write_config config (output args);;
       print (WROTE_MARK +:+ " Wrote MCP configuration with "
              +:+ pretty (length config) +:+ " server(s) to "
              +:+ output args);;
       print "   You can reference this file from Claude Desktop or VS Code's MCP settings.";;
       mret 0%Z) w.
Proof.
  intros Hres. unfold main. rewrite lift_bind, Hres.
  by destruct (list_only args).
Qed.

Lemma main_unresolved (args : Namespace) (e : exn) (w : World) :
  resolve_selection (include args) = Raise e -> main args w = (w, Raise e).
Proof. intros Hres. unfold main. by rewrite lift_bind, Hres. Qed.

(** A run that lists. *)
Lemma main_lists (args : Namespace) (chosen : list SpaceServer) (w : World) :
  list_only args = true ->
  resolve_selection (include args) = Ok chosen ->
  main args w
  = (with_stdout (stdout w +:+ summary_text chosen) w, Ok 0%Z).
Proof.
  intros Hlist Hres. rewrite (main_resolved _ _ _ Hres), Hlist.
  change ((print_human_summary chosen;; mret 0%Z) w)
    with (match print_human_summary chosen w with
          | (w', Ok _) => (w', Ok 0%Z)
          | (w', Raise e) => (w', Raise e)
          end).
  by rewrite print_human_summary_text by by eapply resolved_entries_ascii.
Qed.

(** A run that writes, by what the environment decides. *)
Lemma main_writes (args : Namespace) (chosen : list SpaceServer)
    (config : dict pyobj) (w : World) :
  list_only args = false ->
  resolve_selection (include args) = Ok chosen ->
  build_combined_config chosen = Ok config ->
  main args w = write_run config (output args) w.
Proof.
  intros Hlist Hres Hconfig.
  rewrite (main_resolved _ _ _ Hres), Hlist, lift_bind, Hconfig.
  unfold write_run, config_text.
  change ((write_config config (output args);;
           print (WROTE_MARK +:+ " Wrote MCP configuration with "
                  +:+ pretty (length config) +:+ " server(s) to "
                  +:+ output args);;
           print "   You can reference this file from Claude Desktop or VS Code's MCP settings.";;
           mret 0%Z) w)
    with (match write_text (output args)
                  (dumps (PDict [("servers", PDict config)])) w with
          | (w', Ok _) =>
              (print (wrote_line (length config) (output args));;
               print "   You can reference this file from Claude Desktop or VS Code's MCP settings.";;
               mret 0%Z) w'
          | (w', Raise e) => (w', Raise e)
          end).
  unfold write_text.
  destruct (fs_write w (output args)
              (dumps (PDict [("servers", PDict config)])))
    as [|msg|msg remains]; [|done|done].
  change ((print (wrote_line (length config) (output args));;
           print "   You can reference this file from Claude Desktop or VS Code's MCP settings.";;
           mret 0%Z)
            (with_files
               (<[output args := dumps (PDict [("servers", PDict config)])]>
                  (files w)) w))
    with (match print (wrote_line (length config) (output args))
                  (with_files
                     (<[output args
                        := dumps (PDict [("servers", PDict config)])]>
                        (files w)) w) with
          | (w', Ok _) =>
              (print "   You can reference this file from Claude Desktop or VS Code's MCP settings.";;
               mret 0%Z) w'
          | (w', Raise e) => (w', Raise e)
          end).
  unfold print at 1.
  change (is_ascii (wrote_line (length config) (output args))) with false.
  cbn [orb with_files stdout_encodes].
  destruct (stdout_encodes w (wrote_line (length config) (output args)));
    [|done].
  rewrite print_bind by reflexivity.
  unfold with_stdout, with_files, wrote_text.
  cbn [files stdout fs_write stdout_encodes mret io_ret].
  do 2 f_equal. by rewrite !append_assoc.
Qed.

(** ** JSON text *)

Lemma length_append (a b : string) :
  String.length (a +:+ b) = String.length a + String.length b.
Proof. induction a as [|c a IH]; simpl; [done|]. by rewrite IH. Qed.

(** Decoding the escape of a character gives the character back. *)
Lemma scanstring_escape_char (c : ascii) (t : string) :
  scanstring (escape_char c +:+ t)
  = ('(u, r) ← scanstring t; Some (String c u, r)).
Proof. destruct c as [[] [] [] [] [] [] [] []]; reflexivity. Qed.

Lemma scanstring_escape (s rest : string) :
  scanstring (escape s +:+ String dquote rest) = Some (s, rest).
Proof.
  induction s as [|c s IH]; [done|].
  cbn [escape]. rewrite append_assoc, scanstring_escape_char, IH. done.
Qed.

Lemma scanstring_encoded (s rest : string) :
  exists t,
    encode_basestring_ascii s +:+ rest = String dquote t
    /\ scanstring t = Some (s, rest).
Proof.
  exists (escape s +:+ String dquote rest). split.
  - unfold encode_basestring_ascii. simpl. by rewrite append_assoc.
  - apply scanstring_escape.
Qed.

Lemma skip_ws_spaces (n : nat) (s : string) :
  skip_ws (spaces_of n +:+ s) = skip_ws s.
Proof. induction n as [|n IH]; [done|]. simpl. apply IH. Qed.

Lemma skip_ws_newline_indent (level : nat) (s : string) :
  skip_ws (newline_indent level +:+ s) = skip_ws s.
Proof. unfold newline_indent. simpl. apply skip_ws_spaces. Qed.

Lemma iterencode_opens (level : nat) (o : pyobj) (rest : string) :
  opens_value (iterencode level o +:+ rest).
Proof.
  destruct o as [s|[|x xs]|[|[k v] kvs]]; simpl; constructor.
Qed.

Lemma skip_ws_comma (s : string) : skip_ws ("," +:+ s) = String "," s.
Proof. reflexivity. Qed.

Lemma skip_ws_colon (s : string) : skip_ws (": " +:+ s) = String ":" (" " +:+ s).
Proof. reflexivity. Qed.

Lemma skip_ws_space (s : string) : skip_ws (" " +:+ s) = skip_ws s.
Proof. reflexivity. Qed.

Lemma scan_once_string (fuel : nat) (s : string) :
  scan_once (S fuel) (String dquote s)
  = ('(t, r) ← scanstring s; Some (PStr t, r)).
Proof. reflexivity. Qed.

Lemma scan_once_array (fuel : nat) (s : string) :
  scan_once (S fuel) ("[" +:+ s)
  = match skip_ws s with
    | String "]" r => Some (PList [], r)
    | s1 => '(xs, r) ← JSONArray fuel s1; Some (PList xs, r)
    end.
Proof. reflexivity. Qed.

Lemma scan_once_object (fuel : nat) (s : string) :
  scan_once (S fuel) ("{" +:+ s)
  = match skip_ws s with
    | String "}" r => Some (PDict [], r)
    | s1 =>
        '(pairs, r) ← JSONObject fuel s1;
        Some (PDict (Dict.comprehension fst snd pairs), r)
    end.
Proof. reflexivity. Qed.

Lemma scan_once_array_elements (fuel : nat) (s : string) :
  opens_value (skip_ws s) ->
  scan_once (S fuel) ("[" +:+ s)
  = ('(xs, r) ← JSONArray fuel (skip_ws s); Some (PList xs, r)).
Proof. intros H. rewrite scan_once_array. by destruct H. Qed.

Lemma scan_once_object_items (fuel : nat) (s : string) :
  opens_value (skip_ws s) ->
  scan_once (S fuel) ("{" +:+ s)
  = ('(pairs, r) ← JSONObject fuel (skip_ws s);
     Some (PDict (Dict.comprehension fst snd pairs), r)).
Proof. intros H. rewrite scan_once_object. by destruct H. Qed.

Lemma JSONObject_key (fuel : nat) (s : string) :
  JSONObject (S fuel) (String dquote s)
  = ('(key, r) ← scanstring s;
     match skip_ws r with
     | String ":" r1 =>
         '(value, r2) ← scan_once fuel (skip_ws r1);
         match skip_ws r2 with
         | String "}" r' => Some ([(key, value)], r')
         | String "," r' =>
             '(pairs, r'') ← JSONObject fuel (skip_ws r');
             Some ((key, value) :: pairs, r'')
         | _ => None
         end
     | _ => None
     end).
Proof. reflexivity. Qed.

Lemma skip_ws_opens (s : string) : opens_value s -> skip_ws s = s.
Proof. by intros []. Qed.

Lemma iterencode_list (level : nat) (x : pyobj) (xs : list pyobj) :
  iterencode level (PList (x :: xs))
  = "[" +:+ newline_indent (S level) +:+ iterencode (S level) x
    +:+ more_elements (S level) xs +:+ newline_indent level +:+ "]".
Proof.
  cbn [iterencode]. do 3 f_equal. f_equal.
  induction xs as [|y ys IH]; [done|]. cbn [more_elements]. by rewrite IH.
Qed.

Lemma iterencode_dict (level : nat) (k : string) (v : pyobj)
    (kvs : list (string * pyobj)) :
  iterencode level (PDict ((k, v) :: kvs))
  = "{" +:+ newline_indent (S level) +:+ encode_basestring_ascii k +:+ ": "
    +:+ iterencode (S level) v +:+ more_items (S level) kvs
    +:+ newline_indent level +:+ "}".
Proof.
  cbn [iterencode]. do 5 f_equal. f_equal.
  induction kvs as [|[k' v'] ys IH]; [done|]. cbn [more_items]. by rewrite IH.
Qed.

Lemma size_list (xs : list pyobj) : size (PList xs) = S (sizes xs).
Proof.
  induction xs as [|y ys IH]; [done|].
  change (size (PList (y :: ys)))
    with (S (S (size y + pred (size (PList ys))))).
  by rewrite IH.
Qed.

Lemma size_dict (kvs : list (string * pyobj)) :
  size (PDict kvs) = S (item_sizes kvs).
Proof.
  induction kvs as [|y ys IH]; [done|].
  change (size (PDict (y :: ys)))
    with (S (S (size (snd y) + pred (size (PDict ys))))).
  by rewrite IH.
Qed.

(** The pairs of an object without repeated key make the dictionary that
    lists them. *)
Lemma comprehension_pairs {V} (pairs : list (string * V)) :
  NoDup (map fst pairs) -> Dict.comprehension fst snd pairs = pairs.
Proof.
  unfold Dict.comprehension.
  enough (forall acc : dict V,
            NoDup (map fst acc ++ map fst pairs) ->
            fold_left (fun acc x => Dict.set (fst x) (snd x) acc) pairs acc
            = acc ++ pairs) as Hacc by (intros Hnd; by apply (Hacc [])).
  induction pairs as [|[k v] pairs IH]; intros acc Hnd; simpl.
  - by rewrite app_nil_r.
  - rewrite set_fresh.
    + rewrite IH; [by rewrite <- app_assoc|].
      rewrite map_app. simpl. by rewrite <- app_assoc.
    + apply NoDup_app in Hnd as (_ & Hdisj & _). intros Hin.
      apply (Hdisj _ Hin), list_elem_of_here.
Qed.

Lemma JSONArray_elements (level : nat) (xs : list pyobj) :
  Forall decodes xs ->
  forall x rest fuel,
    decodes x ->
    sizes (x :: xs) <= fuel ->
    JSONArray fuel
      (iterencode (S level) x +:+ more_elements (S level) xs
       +:+ newline_indent level +:+ String "]" rest)
    = Some (x :: xs, rest).
Proof.
  induction 1 as [|y ys Hy _ IH]; intros x rest fuel Hx Hfuel;
    (destruct fuel as [|fuel]; [cbn [sizes] in Hfuel; lia|]);
    cbn [sizes] in Hfuel; cbn [JSONArray more_elements].
  - rewrite Hx by lia. cbn [mbind option_bind].
    change ("" +:+ newline_indent level +:+ String "]" rest)
      with (newline_indent level +:+ String "]" rest).
    by rewrite skip_ws_newline_indent.
  - rewrite !append_assoc. rewrite Hx by lia. cbn [mbind option_bind].
    rewrite skip_ws_comma. cbv iota beta.
    rewrite skip_ws_newline_indent.
    rewrite skip_ws_opens by apply iterencode_opens.
    rewrite IH; [done|done|]. cbn [sizes]. lia.
Qed.

Lemma JSONObject_items (level : nat) (kvs : list (string * pyobj)) :
  Forall (fun kv => decodes (snd kv)) kvs ->
  forall k v rest fuel,
    decodes v ->
    item_sizes ((k, v) :: kvs) <= fuel ->
    JSONObject fuel
      (encode_basestring_ascii k +:+ ": " +:+ iterencode (S level) v
       +:+ more_items (S level) kvs
       +:+ newline_indent level +:+ String "}" rest)
    = Some ((k, v) :: kvs, rest).
Proof.
  induction 1 as [|[k' v'] ys Hy _ IH]; intros k v rest fuel Hv Hfuel;
    (destruct fuel as [|fuel]; [cbn [item_sizes] in Hfuel; lia|]);
    cbn [item_sizes snd] in Hfuel; cbn [more_items];
    match goal with
    | |- JSONObject _ (encode_basestring_ascii k +:+ ?r) = _ =>
        destruct (scanstring_encoded k r) as (t & -> & Ht)
    end;
    rewrite JSONObject_key, Ht; cbn [mbind option_bind];
    rewrite skip_ws_colon; cbv iota beta;
    rewrite skip_ws_space, skip_ws_opens by apply iterencode_opens.
  - rewrite Hv by lia. cbn [mbind option_bind].
    change ("" +:+ newline_indent level +:+ String "}" rest)
      with (newline_indent level +:+ String "}" rest).
    by rewrite skip_ws_newline_indent.
  - rewrite !append_assoc. rewrite Hv by lia. cbn [mbind option_bind].
    rewrite skip_ws_comma. cbv iota beta.
    rewrite skip_ws_newline_indent.
    destruct (scanstring_encoded k'
                (": " +:+ iterencode (S level) v' +:+ more_items (S level) ys
                 +:+ newline_indent level +:+ String "}" rest))
      as (t' & Hk' & _).
    rewrite skip_ws_opens by (rewrite Hk'; constructor).
    rewrite IH; [done|done|]. cbn [item_sizes snd]. lia.
Qed.

(** The decoder reads a value back from its text. *)
Lemma scan_once_iterencode (o : pyobj) : wf o -> decodes o.
Proof.
  induction o as [s|xs IH|kvs IH] using pyobj_ind;
    intros Hwf level rest fuel Hfuel.
  - destruct fuel as [|fuel]; [cbn [size] in Hfuel; lia|].
    destruct (scanstring_encoded s rest) as (t & Ht & Hscan).
    cbn [iterencode]. by rewrite Ht, scan_once_string, Hscan.
  - rewrite size_list in Hfuel.
    destruct fuel as [|fuel]; [lia|].
    destruct xs as [|x xs]; [done|].
    inversion Hwf as [|? Hall|]; subst.
    apply Forall_cons in Hall as [Hx Hxs], IH as [IHx IHxs].
    rewrite iterencode_list, !append_assoc.
    rewrite scan_once_array_elements; rewrite skip_ws_newline_indent,
      skip_ws_opens by apply iterencode_opens; [|apply iterencode_opens].
    change ("]" +:+ rest) with (String "]" rest).
    rewrite JSONArray_elements; [done| |by apply IHx|lia].
    clear -Hxs IHxs. induction IHxs as [|y ys Hy _ IH']; [constructor|].
    apply Forall_cons in Hxs as [? ?]. constructor; auto.
  - rewrite size_dict in Hfuel.
    destruct fuel as [|fuel]; [lia|].
    destruct kvs as [|[k v] kvs]; [done|].
    inversion Hwf as [| |? Hnd Hall]; subst.
    apply Forall_cons in Hall as [Hx Hxs], IH as [IHx IHxs].
    rewrite iterencode_dict, !append_assoc.
    destruct (scanstring_encoded k
                (": " +:+ iterencode (S level) v
                 +:+ more_items (S level) kvs
                 +:+ newline_indent level +:+ "}" +:+ rest))
      as (t & Hk & _).
    rewrite scan_once_object_items; rewrite skip_ws_newline_indent,
      skip_ws_opens by (rewrite Hk; constructor);
      [|rewrite Hk; constructor].
    change ("}" +:+ rest) with (String "}" rest).
    rewrite JSONObject_items; [|  |by apply IHx|lia].
    + cbn [mbind option_bind]. by rewrite comprehension_pairs.
    + clear -Hxs IHxs. induction IHxs as [|y ys Hy _ IH']; [constructor|].
      apply Forall_cons in Hxs as [? ?]. constructor; auto.
Qed.

Lemma size_le_length (o : pyobj) (level : nat) :
  size o <= String.length (iterencode level o).
Proof.
  revert level. induction o as [s|xs IH|kvs IH] using pyobj_ind; intros level.
  - simpl. lia.
  - rewrite size_list. destruct xs as [|x xs]; [simpl; lia|].
    rewrite iterencode_list, !length_append. cbn [sizes].
    apply Forall_cons in IH as [IHx IHxs]. specialize (IHx (S level)).
    assert (sizes xs <= String.length (more_elements (S level) xs)) as Hmore.
    { induction IHxs as [|y ys Hy _ IH']; [done|].
      cbn [sizes more_elements]. rewrite !length_append.
      specialize (Hy (S level)). simpl. lia. }
    simpl. lia.
  - rewrite size_dict. destruct kvs as [|[k v] kvs]; [simpl; lia|].
    rewrite iterencode_dict, !length_append. cbn [item_sizes snd].
    apply Forall_cons in IH as [IHx IHxs]. specialize (IHx (S level)).
    assert (item_sizes kvs <= String.length (more_items (S level) kvs))
      as Hmore.
    { induction IHxs as [|[k' y] ys Hy _ IH']; [done|].
      cbn [item_sizes more_items snd]. rewrite !length_append.
      specialize (Hy (S level)). simpl in *. lia. }
    simpl in *. lia.
Qed.

(** Reading back the text that [dumps] writes gives the value. *)
Lemma loads_dumps (o : pyobj) : wf o -> loads (dumps o) = Some o.
Proof.
  intros Hwf. unfold loads, dumps.
  assert (skip_ws (iterencode 0 o) = iterencode 0 o +:+ "") as ->.
  { rewrite append_nil_r. apply skip_ws_opens.
    rewrite <- (append_nil_r (iterencode 0 o)). apply iterencode_opens. }
  rewrite scan_once_iterencode; [done|done|apply size_le_length].
Qed.

(** ** The merged mapping is a value that Python holds *)

Lemma to_config_wf (self : SpaceServer) (fragment : dict pyobj) :
  to_config self = Ok fragment -> Forall (fun kv => wf (snd kv)) fragment.
Proof.
  unfold to_config.
  destruct (String.eqb (transport self) "http");
    [|destruct (String.eqb (transport self) "ws");
      [|destruct (String.eqb (transport self) "command");
        [destruct (split (entrypoint self)) as [|command args]|]]];
    simpl; intros [= <-]; repeat constructor;
    try (by compute_done).
  induction args as [|a args IH]; constructor; [constructor|done].
Qed.

Lemma set_values {V} (P : V -> Prop) (k : string) (v : V) (d : dict V) :
  P v -> Forall (fun kv => P (snd kv)) d ->
  Forall (fun kv => P (snd kv)) (Dict.set k v d).
Proof.
  intros Hv. induction 1 as [|[k' v'] d Hkv Hd IH]; simpl.
  - by repeat constructor.
  - destruct (String.eqb k k'); constructor; simpl in *; auto.
Qed.

Lemma build_combined_loop_wf (spaces : list SpaceServer)
    (combined config : dict pyobj) :
  build_combined_loop combined spaces = Ok config ->
  Forall (fun kv => wf (snd kv)) combined ->
  Forall (fun kv => wf (snd kv)) config.
Proof.
  revert combined. induction spaces as [|space rest IH]; intros combined;
    simpl; [by intros [= <-]|].
  destruct (to_config space) as [fragment|e] eqn:Hf; simpl; [|done].
  pose proof (to_config_wf _ _ Hf) as Hwf.
  destruct (to_config_Ok_inv _ _ Hf) as [c ->].
  intros Hloop Hacc. apply (IH _ Hloop). rewrite update_singleton.
  apply set_values; [|done]. by apply Forall_cons in Hwf as [? _].
Qed.

Lemma build_combined_config_wf (spaces : list SpaceServer)
    (config : dict pyobj) :
  build_combined_config spaces = Ok config ->
  wf (PDict [("servers", PDict config)]).
Proof.
  intros Hconfig. constructor; [compute_done|].
  repeat constructor.
  - change (NoDup (Dict.keys config)).
    rewrite (build_combined_config_keys _ _ Hconfig). apply NoDup_first_seen.
  - by apply (build_combined_loop_wf _ _ _ Hconfig).
Qed.

(** A run that writes and that the file system lets write: the file at the
    output path holds the text of the merged mapping, whether or not the
    message can be printed afterwards. *)
Lemma main_writes_config (args : Namespace) (chosen : list SpaceServer)
    (config : dict pyobj) (w : World) :
  list_only args = false ->
  resolve_selection (include args) = Ok chosen ->
  build_combined_config chosen = Ok config ->
  fs_write w (output args) (dumps (PDict [("servers", PDict config)]))
  = Written ->
  files (fst (main args w))
  = <[output args := dumps (PDict [("servers", PDict config)])]> (files w).
Proof.
  intros Hlist Hres Hconfig Hwritten.
  rewrite (main_writes _ _ _ _ Hlist Hres Hconfig).
  unfold write_run, config_text. rewrite Hwritten.
  by destruct (stdout_encodes w _).
Qed.

(** A run that writes returns 0 only if the file system has written the
    text. *)
Lemma main_writes_Ok (args : Namespace) (chosen : list SpaceServer)
    (config : dict pyobj) (w : World) (code : Z) :
  list_only args = false ->
  resolve_selection (include args) = Ok chosen ->
  build_combined_config chosen = Ok config ->
  snd (main args w) = Ok code ->
  code = 0%Z
  /\ fs_write w (output args) (dumps (PDict [("servers", PDict config)]))
     = Written
  /\ stdout_encodes w (wrote_line (length config) (output args)) = true.
Proof.
  intros Hlist Hres Hconfig.
  rewrite (main_writes _ _ _ _ Hlist Hres Hconfig).
  unfold write_run, config_text.
  destruct (fs_write w _ _); [|done|done].
  destruct (stdout_encodes w _); [|done].
  cbn [snd]. by intros [= <-].
Qed.

(** ** Examples *)

Example split_runs_of_whitespace :
  split (String "009" " run  --port" +:+ String "010" "8080 ")
  = ["run"; "--port"; "8080"].
Proof. reflexivity. Qed.

Example split_blank : split (String "009" "  ") = [].
Proof. reflexivity. Qed.

Example to_config_http :
  to_config (mkSpaceServer "acme/example" "example" "http"
               "https://example.hf.space/mcp" "An example.")
  = Ok [("example",
         PDict [("type", PStr "http");
                ("url", PStr "https://example.hf.space/mcp")])].
Proof. reflexivity. Qed.

Example resolve_selection_in_request_order :
  (chosen ← resolve_selection (Some ["phi-3-vision"; "everything"]);
   Ok (map display_name chosen))
  = Ok ["phi-3-vision"; "everything"].
Proof. reflexivity. Qed.

Example resolve_selection_not_a_real_space :
  resolve_selection (Some ["not-a-real-space"])
  = Raise (SystemExit
      ("Unknown space(s): not-a-real-space. Valid options: "
       +:+ "everything, llama-3-8b-chat, phi-3-vision, stable-diffusion")).
Proof. reflexivity. Qed.

Example dumps_no_server :
  dumps (PDict [("servers", PDict [])])
  = "{" +:+ String newline "  " +:+ encode_basestring_ascii "servers"
    +:+ ": {}" +:+ String newline "}".
Proof. reflexivity. Qed.

Example escape_control_and_quote :
  escape (String "001" (String dquote (String "233" (String newline "a\b"))))
  = String backslash "u0001" +:+ String backslash (String dquote "")
    +:+ String backslash "u00e9" +:+ String backslash "na"
    +:+ String backslash (String backslash "b").
Proof. reflexivity. Qed.

Example loads_rejects_trailing_comma :
  loads ("[" +:+ encode_basestring_ascii "a" +:+ ",]") = None.
Proof. reflexivity. Qed.

Example loads_skips_whitespace :
  loads (" [" +:+ encode_basestring_ascii "a" +:+ " , "
         +:+ String newline "" +:+ encode_basestring_ascii "b" +:+ " ] ")
  = Some (PList [PStr "a"; PStr "b"]).
Proof. reflexivity. Qed.

Example loads_rejects_control_character :
  loads (String dquote (String "009" (String dquote ""))) = None.
Proof. reflexivity. Qed.

Example loads_reads_escapes :
  loads (String dquote (String backslash "u00E9" +:+ String backslash "/"
                        +:+ String backslash "t" +:+ String dquote ""))
  = Some (PStr (String "233" (String "/" (String "009" "")))).
Proof. reflexivity. Qed.

Example loads_rejects_extra_data :
  loads ("[" +:+ encode_basestring_ascii "a" +:+ "] x") = None.
Proof. reflexivity. Qed.

Example loads_last_key_wins :
  loads ("{" +:+ encode_basestring_ascii "k" +:+ ": "
         +:+ encode_basestring_ascii "1" +:+ ", "
         +:+ encode_basestring_ascii "k" +:+ ": "
         +:+ encode_basestring_ascii "2" +:+ "}")
  = Some (PDict [("k", PStr "2")]).
Proof. reflexivity. Qed.

(** * The claims of the specification *)

(** C1. For a selection that is not empty and has only names of catalogue
    entries, the selector returns, for each name in the order of the request,
    the catalogue entry of that name; the mapping merged from these entries
    has as keys exactly the requested names, in the order in which the request
    names them first (the order of the request itself when it repeats no
    name). *)
Theorem selection_keeps_request_order (selection : list string) :
  selection ≠ [] ->
  Forall (fun name =>
            exists space, space ∈ POPULAR_SPACES /\ display_name space = name)
    selection ->
  exists chosen config,
    resolve_selection (Some selection) = Ok chosen
    /\ map display_name chosen = selection
    /\ Forall (fun space => space ∈ POPULAR_SPACES) chosen
    /\ build_combined_config chosen = Ok config
    /\ (forall k, k ∈ Dict.keys config <-> k ∈ selection)
    /\ Dict.keys config = first_seen selection
    /\ (NoDup selection -> Dict.keys config = selection).
Proof.
  intros Hne Hknown.
  destruct (resolve_selection_known selection Hne) as [chosen Hres].
  { eapply Forall_impl; [exact Hknown|]. cbv beta.
    intros name (space & Hin & <-). apply list_elem_of_fmap. by exists space. }
  destruct (resolve_selection_chosen _ _ Hres) as [Hin Hnames].
  specialize (Hnames selection eq_refl Hne).
  destruct (build_combined_loop_succeeds chosen []) as [config Hconfig].
  { apply Forall_forall. intros space Hspace.
    rewrite Forall_forall in Hin.
    exact (proj1 (Forall_forall _ _) catalogue_renders _ (Hin _ Hspace)). }
  pose proof (build_combined_config_keys _ _ Hconfig) as Hkeys.
  rewrite Hnames in Hkeys.
  exists chosen, config. split_and!; try done.
  - intros k. by rewrite Hkeys, elem_of_first_seen.
  - intros Hnd. by rewrite Hkeys, first_seen_NoDup_id.
Qed.

Lemma selection_keeps_request_order_witness :
  exists chosen config,
    resolve_selection (Some ["phi-3-vision"; "everything"; "phi-3-vision"])
    = Ok chosen
    /\ map display_name chosen = ["phi-3-vision"; "everything"; "phi-3-vision"]
    /\ build_combined_config chosen = Ok config
    /\ Dict.keys config = ["phi-3-vision"; "everything"].
Proof.
  destruct (selection_keeps_request_order
              ["phi-3-vision"; "everything"; "phi-3-vision"])
    as (chosen & config & Hres & Hnames & _ & Hconfig & _ & Hkeys & _).
  - discriminate.
  - assert (Forall (fun name => name ∈ map display_name POPULAR_SPACES)
              ["phi-3-vision"; "everything"; "phi-3-vision"]) as Hknown
      by (rewrite catalogue_names; compute_done).
    eapply Forall_impl; [exact Hknown|]. cbv beta.
    intros name (space & -> & Hin)%list_elem_of_fmap. by exists space.
  - exists chosen, config. split_and!; try done.
Defined.

(** C2. The fragment of an entry is determined by its transport kind: a
    direct-HTTP entry renders to [{type: "http", url: entrypoint}], a
    socket-stream entry to [{type: "ws", url: entrypoint}], and a local-process
    entry whose entrypoint splits on whitespace into a first token and the
    remaining tokens renders to [{command: first, args: remaining}], these
    being the tokens [str.split()] returns; the entrypoint
    ["npx -y @modelcontextprotocol/server-everything stdio"] gives the command
    ["npx"] and the arguments
    [["-y"; "@modelcontextprotocol/server-everything"; "stdio"]]. *)
Theorem to_config_by_transport (self : SpaceServer) :
  (transport self = "http" ->
     to_config self
     = Ok [(display_name self,
            PDict [("type", PStr "http"); ("url", PStr (entrypoint self))])])
  /\ (transport self = "ws" ->
        to_config self
        = Ok [(display_name self,
               PDict [("type", PStr "ws"); ("url", PStr (entrypoint self))])])
  /\ (transport self = "command" ->
        forall command args,
          splits_into (entrypoint self) (command :: args) ->
          split (entrypoint self) = command :: args
          /\ to_config self
             = Ok [(display_name self,
                    PDict [("command", PStr command);
                           ("args", PList (map PStr args))])])
  /\ split "npx -y @modelcontextprotocol/server-everything stdio"
     = ["npx"; "-y"; "@modelcontextprotocol/server-everything"; "stdio"].
Proof.
  split_and!.
  - intros H. unfold to_config. by rewrite H.
  - intros H. unfold to_config. by rewrite H.
  - intros H command args Hsplit%splits_into_unique. split; [done|].
    unfold to_config. by rewrite H, <- Hsplit.
  - reflexivity.
Qed.

Lemma to_config_by_transport_witness :
  transport (mkSpaceServer "modelcontextprotocol/Everything" "everything"
               "command"
               "npx -y @modelcontextprotocol/server-everything stdio" "")
  = "command"
  /\ splits_into "npx -y @modelcontextprotocol/server-everything stdio"
       ["npx"; "-y"; "@modelcontextprotocol/server-everything"; "stdio"]
  /\ to_config (mkSpaceServer "modelcontextprotocol/Everything" "everything"
                  "command"
                  "npx -y @modelcontextprotocol/server-everything stdio" "")
     = Ok [("everything",
            PDict [("command", PStr "npx");
                   ("args", PList [PStr "-y";
                                   PStr "@modelcontextprotocol/server-everything";
                                   PStr "stdio"])])].
Proof.
  assert (splits_into "npx -y @modelcontextprotocol/server-everything stdio"
            ["npx"; "-y"; "@modelcontextprotocol/server-everything"; "stdio"])
    as Hsplit.
  { change (splits_into
              ("" +:+ "npx"
               +:+ " -y @modelcontextprotocol/server-everything stdio")
              ["npx"; "-y"; "@modelcontextprotocol/server-everything";
               "stdio"]).
    apply splits_token; [done|done|done|right; by eexists _, _|].
    change (splits_into
              (" " +:+ "-y" +:+ " @modelcontextprotocol/server-everything stdio")
              ["-y"; "@modelcontextprotocol/server-everything"; "stdio"]).
    apply splits_token; [done|done|done|right; by eexists _, _|].
    change (splits_into
              (" " +:+ "@modelcontextprotocol/server-everything" +:+ " stdio")
              ["@modelcontextprotocol/server-everything"; "stdio"]).
    apply splits_token; [done|done|done|right; by eexists _, _|].
    change (splits_into (" " +:+ "stdio" +:+ "") ["stdio"]).
    apply splits_token; [done|done|done|by left|by apply splits_done]. }
  split; [reflexivity|]. split; [exact Hsplit|].
  exact (proj2 (proj1 (proj2 (proj2 (to_config_by_transport
    (mkSpaceServer "modelcontextprotocol/Everything" "everything" "command"
       "npx -y @modelcontextprotocol/server-everything stdio" "")))) eq_refl
    "npx" ["-y"; "@modelcontextprotocol/server-everything"; "stdio"] Hsplit)).
Defined.

(** C3. A selection with at least one name that no catalogue entry has makes
    the run fail with one [SystemExit] error: its message lists every
    requested name that is unknown, and all the catalogue names in sorted
    order; a process that ends with this result has exit status 1, and the
    world, with its files, is as before. *)
Theorem unknown_selection_fails (args : Namespace) (selection : list string)
    (w : World) :
  include args = Some selection ->
  Exists (fun name =>
            forall space, space ∈ POPULAR_SPACES -> display_name space ≠ name)
    selection ->
  let unknown :=
    filter (fun name => name ∉ map display_name POPULAR_SPACES) selection in
  let valid := sorted (map display_name POPULAR_SPACES) in
  let msg := "Unknown space(s): " +:+ join ", " unknown
             +:+ ". Valid options: " +:+ join ", " valid in
  resolve_selection (Some selection) = Raise (SystemExit msg)
  /\ (forall name,
        name ∈ selection ->
        (forall space, space ∈ POPULAR_SPACES -> display_name space ≠ name) ->
        name ∈ unknown /\ contains name msg)
  /\ Sorted String.le valid
  /\ valid ≡ₚ map display_name POPULAR_SPACES
  /\ (forall space, space ∈ POPULAR_SPACES -> contains (display_name space) msg)
  /\ main args w = (w, Raise (SystemExit msg))
  /\ exit_status (snd (main args w)) = 1%Z.
Proof.
  intros Hinc Hbad unknown valid msg.
  assert (forall name,
            (forall space, space ∈ POPULAR_SPACES -> display_name space ≠ name)
            -> name ∉ map display_name POPULAR_SPACES) as Habsent.
  { intros name Hname (space & -> & Hin)%list_elem_of_fmap.
    by apply (Hname space). }
  assert (resolve_selection (Some selection) = Raise (SystemExit msg)) as Hres.
  { apply resolve_selection_unknown.
    apply Exists_exists in Hbad as (name & Hin & Hname).
    intros Hnil. eapply filter_nil_not_elem_of; [exact Hnil| |exact Hin].
    by apply Habsent. }
  assert (main args w = (w, Raise (SystemExit msg))) as Hmain.
  { apply main_unresolved. by rewrite Hinc. }
  split_and!.
  - done.
  - intros name Hin Hname.
    assert (name ∈ unknown) as Hu.
    { apply list_elem_of_filter. split; [by apply Habsent|done]. }
    split; [done|].
    apply contains_app_r, contains_app_l. by apply contains_join.
  - apply Sorted_merge_sort, _.
  - apply merge_sort_Permutation.
  - intros space Hin. do 3 apply contains_app_r. apply contains_join.
    unfold valid, sorted. rewrite merge_sort_Permutation.
    apply list_elem_of_fmap. by exists space.
  - done.
  - by rewrite Hmain.
Qed.

Lemma unknown_selection_fails_witness :
  main {| output := DEFAULT_CONFIG_PATH; list_only := false;
          include := Some ["everything"; "not-a-real-space"; "zz"] |}
       (quiet_world ∅)
  = (quiet_world ∅,
     Raise (SystemExit
       ("Unknown space(s): not-a-real-space, zz. Valid options: "
        +:+ "everything, llama-3-8b-chat, phi-3-vision, stable-diffusion"))).
Proof.
  refine (proj1 (proj2 (proj2 (proj2 (proj2 (proj2
    (unknown_selection_fails
       {| output := DEFAULT_CONFIG_PATH; list_only := false;
          include := Some ["everything"; "not-a-real-space"; "zz"] |}
       ["everything"; "not-a-real-space"; "zz"]
       (quiet_world ∅) eq_refl _))))))).
  apply Exists_cons_tl, Exists_cons_hd.
  intros space Hin. unfold POPULAR_SPACES in Hin.
  rewrite !elem_of_cons in Hin.
  destruct Hin as [->|[->|[->|[->|Hin]]]]; try discriminate.
  by apply elem_of_nil in Hin.
Defined.

(** C4. With no selection ([--include] absent, or given without a name) the
    selector returns the whole catalogue in catalogue order; the mapping
    merged from it has as many keys as the catalogue has entries, the display
    names of the catalogue being distinct (as the size of a merged mapping is
    the number of its entries whenever their display names are distinct). *)
Theorem empty_selection_is_full_catalogue (selection : option (list string)) :
  selection = None \/ selection = Some [] ->
  resolve_selection selection = Ok POPULAR_SPACES
  /\ NoDup (map display_name POPULAR_SPACES)
  /\ (exists config,
        build_combined_config POPULAR_SPACES = Ok config
        /\ Dict.keys config = map display_name POPULAR_SPACES
        /\ length config = length POPULAR_SPACES)
  /\ (forall spaces config,
        NoDup (map display_name spaces) ->
        build_combined_config spaces = Ok config ->
        length config = length spaces).
Proof.
  intros Hsel. split_and!.
  - by destruct Hsel as [-> | ->].
  - apply catalogue_names_NoDup.
  - destruct (build_combined_loop_succeeds POPULAR_SPACES [] catalogue_renders)
      as [config Hconfig].
    exists config. split_and!; [done| |].
    + rewrite (build_combined_config_keys _ _ Hconfig).
      apply first_seen_NoDup_id, catalogue_names_NoDup.
    + by apply build_combined_config_size, Hconfig; apply catalogue_names_NoDup.
  - intros spaces config. apply build_combined_config_size.
Qed.

Lemma empty_selection_is_full_catalogue_witness :
  (@None (list string) = None \/ @None (list string) = Some [])
  /\ resolve_selection None = Ok POPULAR_SPACES
  /\ exists config,
       build_combined_config POPULAR_SPACES = Ok config
       /\ length config = 4.
Proof.
  split; [by left|].
  destruct (empty_selection_is_full_catalogue None (or_introl eq_refl))
    as (Hres & _ & (config & Hconfig & _ & Hlen) & _).
  split; [exact Hres|]. exists config. split; [exact Hconfig|exact Hlen].
Defined.

(** C5. An entry whose transport is none of ["http"], ["ws"] and ["command"]
    does not render: the transform raises an error whose message names the
    transport string and the identifier of the entry; merging a selection stops
    at the first such entry with that error, and no selection that contains
    the entry yields a merged mapping. *)
Theorem unsupported_transport_fails (self : SpaceServer) :
  transport self ∉ ["http"; "ws"; "command"] ->
  let msg := "Unsupported transport '" +:+ transport self +:+ "' for "
             +:+ space_id self in
  to_config self = Raise (ValueError msg)
  /\ contains (transport self) msg
  /\ contains (space_id self) msg
  /\ (forall pre post combined,
        Forall renders pre ->
        build_combined_loop combined (pre ++ self :: post)
        = Raise (ValueError msg))
  /\ (forall spaces,
        self ∈ spaces -> exists e, build_combined_config spaces = Raise e).
Proof.
  intros Hkind msg.
  assert (to_config self = Raise (ValueError msg)) as Hfail.
  { rewrite !not_elem_of_cons in Hkind. destruct Hkind as (H1 & H2 & H3 & _).
    apply String.eqb_neq in H1, H2, H3.
    unfold to_config. by rewrite H1, H2, H3. }
  split_and!.
  - done.
  - exists "Unsupported transport '", ("' for " +:+ space_id self). done.
  - exists ("Unsupported transport '" +:+ transport self +:+ "' for "), "".
    by rewrite append_nil_r, !append_assoc.
  - intros pre post combined Hpre.
    by apply build_combined_loop_first_failure.
  - intros spaces Hin. eapply build_combined_loop_failure; [done|].
    intros [fragment Hf]. congruence.
Qed.

Lemma unsupported_transport_fails_witness :
  ("grpc" ∉ ["http"; "ws"; "command"])
  /\ to_config (mkSpaceServer "acme/demo" "demo" "grpc" "localhost:50051" "")
     = Raise (ValueError "Unsupported transport 'grpc' for acme/demo").
Proof.
  assert ("grpc" ∉ ["http"; "ws"; "command"]) as Hkind.
  { rewrite !not_elem_of_cons. split_and!; try discriminate.
    apply not_elem_of_nil. }
  split; [exact Hkind|].
  exact (proj1 (unsupported_transport_fails
    (mkSpaceServer "acme/demo" "demo" "grpc" "localhost:50051" "") Hkind)).
Defined.

(** C6. The fragments merge into one mapping in the order of the selection:
    the keys of the merged mapping are the display names of the selected
    entries, each at its first occurrence; the value of a key is the fragment
    of the last selected entry with that display name (a later entry
    overwrites an earlier one of the same name); and when the display names
    are distinct the merged mapping is the sequence of all the fragments,
    unchanged. *)
Theorem merge_is_last_write_wins (spaces : list SpaceServer) :
  Forall renders spaces ->
  exists config,
    build_combined_config spaces = Ok config
    /\ Dict.keys config = first_seen (map display_name spaces)
    /\ (forall pre space post,
          spaces = pre ++ space :: post ->
          (forall later, later ∈ post ->
             display_name later ≠ display_name space) ->
          exists server_config,
            to_config space = Ok [(display_name space, server_config)]
            /\ Dict.get config (display_name space) = Some server_config)
    /\ (NoDup (map display_name spaces) ->
          exists fragments,
            mapM to_config spaces = Ok fragments
            /\ config = concat fragments).
Proof.
  intros Hall.
  destruct (build_combined_loop_succeeds spaces [] Hall) as [config Hconfig].
  exists config. split_and!.
  - done.
  - by apply build_combined_config_keys.
  - intros pre space post -> Hlast.
    by eapply build_combined_loop_last_wins.
  - intros Hnd.
    by destruct (build_combined_loop_distinct _ _ _ Hconfig Hnd)
      as (fragments & Hm & ->); exists fragments.
Qed.

Lemma merge_is_last_write_wins_witness :
  exists config,
    build_combined_config
      [mkSpaceServer "a/one" "same" "http" "https://one.hf.space/mcp" "";
       mkSpaceServer "b/two" "other" "ws" "wss://two.hf.space/mcp" "";
       mkSpaceServer "c/three" "same" "command" "run three" ""]
    = Ok config
    /\ Dict.keys config = ["same"; "other"]
    /\ Dict.get config "same"
       = Some (PDict [("command", PStr "run"); ("args", PList [PStr "three"])]).
Proof.
  destruct (merge_is_last_write_wins
    [mkSpaceServer "a/one" "same" "http" "https://one.hf.space/mcp" "";
     mkSpaceServer "b/two" "other" "ws" "wss://two.hf.space/mcp" "";
     mkSpaceServer "c/three" "same" "command" "run three" ""])
    as (config & Hconfig & Hkeys & Hlast & _).
  - repeat constructor; eexists; vm_compute; reflexivity.
  - exists config. split_and!; [exact Hconfig|exact Hkeys|].
    destruct (Hlast
      [mkSpaceServer "a/one" "same" "http" "https://one.hf.space/mcp" "";
       mkSpaceServer "b/two" "other" "ws" "wss://two.hf.space/mcp" ""]
      (mkSpaceServer "c/three" "same" "command" "run three" "") [] eq_refl)
      as (server_config & Hf & Hget).
    + intros later Hin. by apply elem_of_nil in Hin.
    + vm_compute in Hf. injection Hf as <-. exact Hget.
Defined.

(** C7. The writer hands the text of [{"servers": mapping}] to the file
    system, and when the file system writes it (whenever the writer returns)
    the output file holds that text.  This text is lossless: reading it back
    as JSON gives the same dictionary, with the same keys in the same
    (insertion) order and the same values.  This holds for every mapping
    Python can hold (no key twice), and the mapping merged from any selection
    is one; so after every run in which the file is written, and after every
    run that returns, the output file reads back as the merged mapping. *)
Theorem written_config_round_trips (config : dict pyobj) (output_path : string)
    (w : World) :
  wf (PDict [("servers", PDict config)]) ->
  let text := dumps (PDict [("servers", PDict config)]) in
  (fs_write w output_path text = Written ->
     write_config config output_path w
     = ({| files := <[output_path := text]> (files w); stdout := stdout w;
           fs_write := fs_write w; stdout_encodes := stdout_encodes w |},
        Ok tt)
     /\ files (fst (write_config config output_path w)) !! output_path
        = Some text)
  /\ (forall w',
        write_config config output_path w = (w', Ok tt) ->
        fs_write w output_path text = Written
        /\ files w' !! output_path = Some text)
  /\ loads text = Some (PDict [("servers", PDict config)])
  /\ (forall parsed,
        loads text = Some (PDict [("servers", PDict parsed)]) ->
        parsed = config /\ Dict.keys parsed = Dict.keys config)
  /\ (forall spaces merged,
        build_combined_config spaces = Ok merged ->
        wf (PDict [("servers", PDict merged)]))
  /\ (forall args chosen merged,
        list_only args = false ->
        resolve_selection (include args) = Ok chosen ->
        build_combined_config chosen = Ok merged ->
        fs_write w (output args) (dumps (PDict [("servers", PDict merged)]))
        = Written
        \/ (exists code, snd (main args w) = Ok code) ->
        exists written,
          files (fst (main args w)) !! output args = Some written
          /\ loads written = Some (PDict [("servers", PDict merged)])).
Proof.
  intros Hwf text. split_and!.
  - intros Hwritten. unfold write_config, write_text. fold text.
    rewrite Hwritten. split; [reflexivity|]. apply lookup_insert_eq.
  - unfold write_config, write_text. fold text.
    destruct (fs_write w output_path text); [|done|done].
    intros w' [= <-]. split; [done|]. apply lookup_insert_eq.
  - by apply loads_dumps.
  - intros parsed Hparsed. unfold text in Hparsed.
    rewrite loads_dumps in Hparsed by done.
    injection Hparsed as <-. done.
  - apply build_combined_config_wf.
  - intros args chosen merged Hlist Hres Hmerged Hrun.
    assert (fs_write w (output args)
              (dumps (PDict [("servers", PDict merged)])) = Written)
      as Hwritten.
    { destruct Hrun as [Hwritten|[code Hcode]]; [done|].
      by destruct (main_writes_Ok _ _ _ w code Hlist Hres Hmerged Hcode)
        as (_ & Hwritten & _). }
    exists (dumps (PDict [("servers", PDict merged)])). split.
    + rewrite (main_writes_config _ _ _ w Hlist Hres Hmerged Hwritten).
      apply lookup_insert_eq.
    + by eapply loads_dumps, build_combined_config_wf.
Qed.

Lemma written_config_round_trips_witness :
  loads (dumps (PDict [("servers",
           PDict [("everything",
                   PDict [("command", PStr "npx");
                          ("args", PList [PStr "-y";
                             PStr "@modelcontextprotocol/server-everything";
                             PStr "stdio"])]);
                  ("phi-3-vision",
                   PDict [("type", PStr "http");
                          ("url", PStr "https://microsoft-phi-3-vision.hf.space/mcp")])])]))
  = Some (PDict [("servers",
           PDict [("everything",
                   PDict [("command", PStr "npx");
                          ("args", PList [PStr "-y";
                             PStr "@modelcontextprotocol/server-everything";
                             PStr "stdio"])]);
                  ("phi-3-vision",
                   PDict [("type", PStr "http");
                          ("url", PStr "https://microsoft-phi-3-vision.hf.space/mcp")])])]).
Proof.
  refine (proj1 (proj2 (proj2 (written_config_round_trips _ DEFAULT_CONFIG_PATH
    (quiet_world ∅) _)))).
  apply (build_combined_config_wf
    [mkSpaceServer "modelcontextprotocol/Everything" "everything" "command"
       "npx -y @modelcontextprotocol/server-everything stdio" "";
     mkSpaceServer "microsoft/phi-3-vision" "phi-3-vision" "http"
       "https://microsoft-phi-3-vision.hf.space/mcp" ""]).
  reflexivity.
Defined.

(** C8. For a selection that resolves, a run with [--list-only] prints the
    summary of exactly the selected entries, in the order of the selection
    (for a request that names entries: one entry for each requested name, in
    the order of the request), returns 0, so that the exit status is 0, and
    writes no file: the files of the world, and all of it but the standard
    output, are as before. *)
Theorem list_only_prints_selection (args : Namespace)
    (chosen : list SpaceServer) (w : World) :
  list_only args = true ->
  resolve_selection (include args) = Ok chosen ->
  main args w
  = ({| files := files w; stdout := stdout w +:+ summary_text chosen;
        fs_write := fs_write w; stdout_encodes := stdout_encodes w |},
     Ok 0%Z)
  /\ files (fst (main args w)) = files w
  /\ exit_status (snd (main args w)) = 0%Z
  /\ (forall names,
        include args = Some names -> names ≠ [] ->
        map display_name chosen = names)
  /\ (include args = None \/ include args = Some [] ->
        chosen = POPULAR_SPACES).
Proof.
  intros Hlist Hres.
  pose proof (main_lists _ _ w Hlist Hres) as Hmain.
  split_and!.
  - exact Hmain.
  - by rewrite Hmain.
  - by rewrite Hmain.
  - apply (resolve_selection_chosen _ _ Hres).
  - intros [Hnone|Hnone]; rewrite Hnone in Hres; by injection Hres.
Qed.

Lemma list_only_prints_selection_witness :
  main {| output := DEFAULT_CONFIG_PATH; list_only := true;
          include := Some ["phi-3-vision"; "llama-3-8b-chat"] |}
       (quiet_world {["mcp_spaces.json" := "old"]})
  = ({| files := {["mcp_spaces.json" := "old"]};
        stdout :=
          "" +:+ summary_text
            [mkSpaceServer "microsoft/phi-3-vision" "phi-3-vision" "http"
               "https://microsoft-phi-3-vision.hf.space/mcp"
               ("Vision-language toolchain exposing the Phi-3 multimodal experience via"
                +:+ " MCP compatible HTTP endpoints.");
             mkSpaceServer "meta-llama/llama-3-8b-instruct" "llama-3-8b-chat"
               "http" "https://llama-3-8b-instruct.hf.space/mcp"
               ("Community LLaMA 3 chat interface. HTTP transport exposes inference"
                +:+ " endpoints suitable for natural language tooling.")];
        fs_write := fun _ _ => Written;
        stdout_encodes := fun _ => true |},
     Ok 0%Z).
Proof.
  refine (proj1 (list_only_prints_selection
    {| output := DEFAULT_CONFIG_PATH; list_only := true;
       include := Some ["phi-3-vision"; "llama-3-8b-chat"] |} _
    (quiet_world {["mcp_spaces.json" := "old"]})
    eq_refl _)).
  reflexivity.
Defined.

(** C9. The transform of a local-process (["command"]) entry is partial: when
    the entrypoint is empty or has whitespace only, it splits into no token
    and rendering fails with the error of unpacking; when the entrypoint has
    a character that is not whitespace, it has a first token and renders. *)
Theorem command_entry_needs_a_token (self : SpaceServer) :
  transport self = "command" ->
  (all_space (entrypoint self) = true ->
     split (entrypoint self) = []
     /\ to_config self
        = Raise (ValueError
                   "not enough values to unpack (expected at least 1, got 0)"))
  /\ (all_space (entrypoint self) = false ->
        exists command args,
          split (entrypoint self) = command :: args
          /\ to_config self
             = Ok [(display_name self,
                    PDict [("command", PStr command);
                           ("args", PList (map PStr args))])])
  /\ (renders self <-> all_space (entrypoint self) = false).
Proof.
  intros Hkind.
  assert (all_space (entrypoint self) = true ->
          split (entrypoint self) = []
          /\ to_config self
             = Raise (ValueError
                 "not enough values to unpack (expected at least 1, got 0)"))
    as Hempty.
  { intros Hws%split_nil_iff. split; [done|].
    unfold to_config. by rewrite Hkind, Hws. }
  assert (all_space (entrypoint self) = false ->
          exists command args,
            split (entrypoint self) = command :: args
            /\ to_config self
               = Ok [(display_name self,
                      PDict [("command", PStr command);
                             ("args", PList (map PStr args))])])
    as Htoken.
  { intros Hws. destruct (split (entrypoint self)) as [|command args] eqn:Hs.
    - apply split_nil_iff in Hs. congruence.
    - exists command, args. split; [done|].
      unfold to_config. by rewrite Hkind, Hs. }
  split_and!; [done..|]. split.
  - intros [fragment Hf].
    destruct (all_space (entrypoint self)); [|done].
    destruct Hempty as [_ Hraise]; [done|]. congruence.
  - intros (command & args & _ & Hf)%Htoken. by eexists.
Qed.

Lemma command_entry_needs_a_token_witness :
  all_space "   " = true
  /\ to_config (mkSpaceServer "acme/blank" "blank" "command" "   " "")
     = Raise (ValueError
                "not enough values to unpack (expected at least 1, got 0)").
Proof.
  split; [reflexivity|].
  refine (proj2 (proj1 (command_entry_needs_a_token
    (mkSpaceServer "acme/blank" "blank" "command" "   " "") _) _));
    reflexivity.
Defined.

(** C10. Every entry of the built-in catalogue has one of the three recognized
    transports, so every entry of a selection resolved from the catalogue
    renders (the branch of the unsupported transport is not reached) and the
    merge of the selection succeeds. *)
Theorem catalogue_transports_recognized :
  Forall (fun space => transport space ∈ ["http"; "ws"; "command"])
    POPULAR_SPACES
  /\ forall selection chosen,
       resolve_selection selection = Ok chosen ->
       Forall (fun space =>
                 transport space ∈ ["http"; "ws"; "command"]
                 /\ exists fragment, to_config space = Ok fragment) chosen
       /\ exists config, build_combined_config chosen = Ok config.
Proof.
  assert (Forall (fun space =>
            transport space ∈ ["http"; "ws"; "command"]
            /\ exists fragment, to_config space = Ok fragment) POPULAR_SPACES)
    as Hcat.
  { repeat constructor; try (eexists; vm_compute; reflexivity);
      rewrite !elem_of_cons; simpl; tauto. }
  split.
  - eapply Forall_impl; [exact Hcat|]. cbv beta. tauto.
  - intros selection chosen [Hin _]%resolve_selection_chosen.
    assert (Forall (fun space =>
              transport space ∈ ["http"; "ws"; "command"]
              /\ exists fragment, to_config space = Ok fragment) chosen)
      as Hchosen.
    { rewrite Forall_forall in Hcat, Hin. apply Forall_forall. auto. }
    split; [done|].
    apply build_combined_loop_succeeds.
    eapply Forall_impl; [exact Hchosen|]. cbv beta. intros space [_ H]. exact H.
Qed.

Lemma catalogue_transports_recognized_witness :
  exists chosen config,
    resolve_selection (Some ["stable-diffusion"; "everything"]) = Ok chosen
    /\ build_combined_config chosen = Ok config.
Proof.
  eexists. 
  destruct (proj2 catalogue_transports_recognized
              (Some ["stable-diffusion"; "everything"]) _ eq_refl)
    as [_ [config Hconfig]].
  exists config. split; [reflexivity|exact Hconfig].
Defined.

(** * Further properties of the code *)

(** ** Splitting the entrypoint *)

(** X1. [str.split()] returns the splitting of the text on whitespace and
    there is no other: its tokens are not empty and have no whitespace, they
    are the longest such runs of the text in their order, and every list of
    tokens that the text splits into is the list that [split] returns. *)
Theorem split_is_the_only_splitting (s : string) :
  splits_into s (split s)
  /\ Forall token (split s)
  /\ (forall ts, splits_into s ts -> ts = split s).
Proof.
  split_and!.
  - apply split_spec.
  - eapply splits_into_tokens, split_spec.
  - apply splits_into_unique.
Qed.

Lemma split_is_the_only_splitting_witness :
  splits_into ("  " +:+ "run" +:+ " fast") ["run"; "fast"]
  /\ ["run"; "fast"] = split "  run fast".
Proof.
  assert (splits_into ("  " +:+ "run" +:+ " fast") ["run"; "fast"]) as H.
  { apply splits_token; [done|done|done| |].
    - right. by eexists _, _.
    - change (splits_into (" " +:+ "fast" +:+ "") ["fast"]).
      apply splits_token; [done|done|done|by left|by apply splits_done]. }
  split; [exact H|].
  exact (proj2 (proj2 (split_is_the_only_splitting "  run fast")) _ H).
Defined.

(** X2. Whitespace before and after the entrypoint does not count: the text
    splits into the same tokens with or without it. *)
Theorem split_ignores_surrounding_space (before s after : string) :
  all_space before = true -> all_space after = true ->
  split (before +:+ s +:+ after) = split s.
Proof.
  intros Hb Ha. unfold split.
  rewrite split_scan_leading_space by done.
  by apply split_scan_trailing_space.
Qed.

Lemma split_ignores_surrounding_space_witness :
  split (String "009" " " +:+ "npx -y" +:+ String "010" "") = ["npx"; "-y"].
Proof.
  rewrite (split_ignores_surrounding_space (String "009" " ") "npx -y"
             (String "010" "")); reflexivity.
Defined.

(** X3. A command line made of a command and its arguments, each without
    whitespace and not empty, joined by single spaces, renders to that command
    and those arguments. *)
Theorem command_line_round_trips (self : SpaceServer) (command : string)
    (args : list string) :
  transport self = "command" ->
  entrypoint self = join " " (command :: args) ->
  Forall token (command :: args) ->
  split (entrypoint self) = command :: args
  /\ to_config self
     = Ok [(display_name self,
            PDict [("command", PStr command);
                   ("args", PList (map PStr args))])].
Proof.
  intros Hkind Hentry Htokens.
  assert (split (entrypoint self) = command :: args) as Hsplit.
  { rewrite Hentry. symmetry. by apply splits_into_unique, splits_into_join. }
  split; [done|]. unfold to_config. by rewrite Hkind, Hsplit.
Qed.

Lemma command_line_round_trips_witness :
  to_config (mkSpaceServer "acme/tool" "tool" "command"
               (join " " ["uvx"; "tool"; "--stdio"]) "")
  = Ok [("tool",
         PDict [("command", PStr "uvx");
                ("args", PList [PStr "tool"; PStr "--stdio"])])].
Proof.
  refine (proj2 (command_line_round_trips
    (mkSpaceServer "acme/tool" "tool" "command"
       (join " " ["uvx"; "tool"; "--stdio"]) "")
    "uvx" ["tool"; "--stdio"] eq_refl eq_refl _)).
  repeat constructor; discriminate.
Defined.

(** ** The merged mapping *)

Lemma to_config_schema (self : SpaceServer) (fragment : dict pyobj) :
  to_config self = Ok fragment ->
  Forall (fun kv => server_schema (snd kv)) fragment.
Proof.
  unfold to_config.
  destruct (String.eqb (transport self) "http").
  { simpl. intros [= <-]. constructor; [|constructor]. left.
    exists "http", (entrypoint self). split; [|done].
    apply list_elem_of_here. }
  destruct (String.eqb (transport self) "ws").
  { simpl. intros [= <-]. constructor; [|constructor]. left.
    exists "ws", (entrypoint self). split; [|done].
    apply list_elem_of_further, list_elem_of_here. }
  destruct (String.eqb (transport self) "command"); [|done].
  pose proof (splits_into_tokens _ _ (split_spec (entrypoint self))) as Htok.
  destruct (split (entrypoint self)) as [|command args]; [done|].
  simpl. intros [= <-]. constructor; [|constructor]. right.
  apply Forall_cons in Htok as [Hc Hargs]. by exists command, args.
Qed.

Lemma build_combined_loop_values (P : pyobj -> Prop)
    (spaces : list SpaceServer) (combined config : dict pyobj) :
  (forall space fragment,
     to_config space = Ok fragment ->
     Forall (fun kv => P (snd kv)) fragment) ->
  build_combined_loop combined spaces = Ok config ->
  Forall (fun kv => P (snd kv)) combined ->
  Forall (fun kv => P (snd kv)) config.
Proof.
  intros HP. revert combined.
  induction spaces as [|space rest IH]; intros combined;
    simpl; [by intros [= <-]|].
  destruct (to_config space) as [fragment|e] eqn:Hf; simpl; [|done].
  pose proof (HP _ _ Hf) as Hfrag.
  destruct (to_config_Ok_inv _ _ Hf) as [c ->].
  intros Hloop Hacc. apply (IH _ Hloop). rewrite update_singleton.
  apply set_values; [|done]. by apply Forall_cons in Hfrag as [? _].
Qed.

Lemma build_combined_loop_Raise (spaces : list SpaceServer)
    (combined : dict pyobj) (e : exn) :
  build_combined_loop combined spaces = Raise e ->
  exists pre space post,
    spaces = pre ++ space :: post
    /\ Forall renders pre
    /\ to_config space = Raise e.
Proof.
  revert combined. induction spaces as [|s rest IH]; intros combined;
    simpl; [done|].
  destruct (to_config s) as [fragment|e'] eqn:Hs; simpl.
  - intros (pre & space & post & -> & Hpre & Hf)%IH.
    exists (s :: pre), space, post. split_and!; [done| |done].
    constructor; [by exists fragment|done].
  - intros [= ->]. exists [], s, rest. split_and!; [done|constructor|done].
Qed.

Lemma length_first_seen (names : list string) :
  length (first_seen names) <= length names
  /\ (length (first_seen names) = length names <-> NoDup names).
Proof.
  induction names as [|n names [IHle IHeq]]; simpl.
  - split; [lia|]. split; [constructor|done].
  - pose proof (length_filter (fun m => m ≠ n) (first_seen names)) as Hle.
    split; [lia|]. split.
    + intros Heq.
      assert (length (first_seen names) = length names) as Hlen by lia.
      constructor; [|by apply IHeq].
      intros Hin%elem_of_first_seen.
      pose proof (length_filter_lt (fun m => m ≠ n) _ _ Hin) as Hlt.
      assert (¬ n ≠ n) as Hnn by tauto. specialize (Hlt Hnn). lia.
    + intros Hnd.
      pose proof (first_seen_NoDup_id (n :: names) Hnd) as Hid.
      simpl in Hid. injection Hid as Hid. by rewrite Hid.
Qed.

(** X4. Every server entry of a merged mapping has the shape of the output
    format: a type ["http"] or ["ws"] with a URL, or a command with its
    arguments, the command and the arguments being tokens (not empty, without
    whitespace); and the mapping has no key twice. *)
Theorem merged_mapping_meets_schema (spaces : list SpaceServer)
    (config : dict pyobj) :
  build_combined_config spaces = Ok config ->
  Forall (fun kv => server_schema (snd kv)) config
  /\ NoDup (Dict.keys config).
Proof.
  intros Hconfig. split.
  - eapply build_combined_loop_values;
      [apply to_config_schema|exact Hconfig|constructor].
  - rewrite (build_combined_config_keys _ _ Hconfig). apply NoDup_first_seen.
Qed.

Lemma merged_mapping_meets_schema_witness :
  Forall (fun kv => server_schema (snd kv))
    [("everything",
      PDict [("command", PStr "npx");
             ("args", PList [PStr "-y";
                             PStr "@modelcontextprotocol/server-everything";
                             PStr "stdio"])]);
     ("phi-3-vision",
      PDict [("type", PStr "http");
             ("url", PStr "https://microsoft-phi-3-vision.hf.space/mcp")])].
Proof.
  refine (proj1 (merged_mapping_meets_schema
    [mkSpaceServer "modelcontextprotocol/Everything" "everything" "command"
       "npx -y @modelcontextprotocol/server-everything stdio" "";
     mkSpaceServer "microsoft/phi-3-vision" "phi-3-vision" "http"
       "https://microsoft-phi-3-vision.hf.space/mcp" ""] _ _)).
  reflexivity.
Defined.

(** X5. The merge is all or nothing: it yields a mapping exactly when every
    entry renders, and it raises an error exactly when some entry does not
    render, the error being that of the first such entry. *)
Theorem merge_succeeds_iff_all_render (spaces : list SpaceServer) :
  ((exists config, build_combined_config spaces = Ok config)
   <-> Forall renders spaces)
  /\ (forall e,
        build_combined_config spaces = Raise e
        <-> exists pre space post,
              spaces = pre ++ space :: post
              /\ Forall renders pre
              /\ to_config space = Raise e).
Proof.
  split.
  - split.
    + intros [config Hconfig]. by eapply build_combined_loop_all_render.
    + apply build_combined_loop_succeeds.
  - intros e. split.
    + apply build_combined_loop_Raise.
    + intros (pre & space & post & -> & Hpre & Hf).
      by apply build_combined_loop_first_failure.
Qed.

(** X6. A merged mapping has at most as many keys as entries were merged, and
    exactly as many if and only if the display names of the entries are
    distinct. *)
Theorem merged_size_counts_distinct_names (spaces : list SpaceServer)
    (config : dict pyobj) :
  build_combined_config spaces = Ok config ->
  length config = length (first_seen (map display_name spaces))
  /\ length config <= length spaces
  /\ (length config = length spaces <-> NoDup (map display_name spaces)).
Proof.
  intros Hkeys%build_combined_config_keys.
  apply (f_equal length) in Hkeys. unfold Dict.keys in Hkeys.
  rewrite length_map in Hkeys.
  destruct (length_first_seen (map display_name spaces)) as [Hle Heq].
  rewrite length_map in Hle, Heq. rewrite Hkeys. done.
Qed.

Lemma merged_size_counts_distinct_names_witness :
  exists config,
    build_combined_config
      [mkSpaceServer "a/one" "same" "http" "https://one.hf.space/mcp" "";
       mkSpaceServer "c/three" "same" "ws" "wss://three.hf.space/mcp" ""]
    = Ok config
    /\ length config = 1.
Proof.
  eexists. split; [reflexivity|].
  refine (proj1 (merged_size_counts_distinct_names
    [mkSpaceServer "a/one" "same" "http" "https://one.hf.space/mcp" "";
     mkSpaceServer "c/three" "same" "ws" "wss://three.hf.space/mcp" ""]
    _ eq_refl)).
Defined.

(** ** The selector and the catalogue *)

Lemma comprehension_NoDup {A V} (key : A -> string) (val : A -> V)
    (xs : list A) :
  NoDup (map key xs) ->
  Dict.comprehension key val xs = map (fun x => (key x, val x)) xs.
Proof.
  unfold Dict.comprehension.
  enough (forall acc : dict V,
            NoDup (map fst acc ++ map key xs) ->
            fold_left (fun acc x => Dict.set (key x) (val x) acc) xs acc
            = acc ++ map (fun x => (key x, val x)) xs) as Hacc
    by (intros Hnd; by apply (Hacc [])).
  induction xs as [|x xs IH]; intros acc Hnd; simpl.
  - by rewrite app_nil_r.
  - rewrite set_fresh.
    + rewrite IH; [by rewrite <- app_assoc|].
      rewrite map_app. simpl. by rewrite <- app_assoc.
    + apply NoDup_app in Hnd as (_ & Hdisj & _). intros Hin.
      apply (Hdisj _ Hin), list_elem_of_here.
Qed.

Lemma get_map_NoDup {A V} (key : A -> string) (val : A -> V) (xs : list A)
    (x : A) :
  NoDup (map key xs) -> x ∈ xs ->
  Dict.get (map (fun x => (key x, val x)) xs) (key x) = Some (val x).
Proof.
  induction xs as [|y xs IH]; simpl; [by intros _ ?%elem_of_nil|].
  intros [Hy Hnd]%NoDup_cons [->|Hin]%elem_of_cons.
  - by rewrite String.eqb_refl.
  - destruct (String.eqb_spec (key x) (key y)) as [Heq|_]; [|by apply IH].
    destruct Hy. rewrite <- Heq. apply list_elem_of_fmap. by exists x.
Qed.

(** Looking a catalogue entry up by its display name finds that entry. *)
Lemma available_catalogue_entry (space : SpaceServer) :
  space ∈ POPULAR_SPACES ->
  Dict.get (Dict.comprehension display_name (fun space => space)
              POPULAR_SPACES) (display_name space)
  = Some space.
Proof.
  intros Hin. rewrite comprehension_NoDup by apply catalogue_names_NoDup.
  by apply (get_map_NoDup display_name (fun space => space)),
    Hin; apply catalogue_names_NoDup.
Qed.

Lemma catalogue_entry_unique (a b : SpaceServer) :
  a ∈ POPULAR_SPACES -> b ∈ POPULAR_SPACES ->
  display_name a = display_name b -> a = b.
Proof.
  intros Ha Hb Heq. apply available_catalogue_entry in Ha, Hb.
  rewrite Heq in Ha. congruence.
Qed.

Lemma resolve_selection_Some_cons (n : string) (names : list string) :
  resolve_selection (Some (n :: names))
  = match
      filter (fun name => name ∉ map display_name POPULAR_SPACES) (n :: names)
    with
    | [] =>
        mapM (Dict.getitem
                (Dict.comprehension display_name (fun space => space)
                   POPULAR_SPACES)) (n :: names)
    | unknown =>
        Raise (SystemExit
          ("Unknown space(s): " +:+ join ", " unknown
           +:+ ". Valid options: "
           +:+ join ", " (sorted (map display_name POPULAR_SPACES))))
    end.
Proof.
  unfold resolve_selection. rewrite unknown_names.
  destruct (filter _ (n :: names)); [done|].
  rewrite keys_comprehension.
  by rewrite (first_seen_NoDup_id _ catalogue_names_NoDup).
Qed.

Lemma filter_nil_Forall {A} (P : A -> Prop) `{!forall x, Decision (P x)}
    (l : list A) :
  filter P l = [] <-> Forall (fun x => ~ P x) l.
Proof.
  split; [|apply filter_none_pass].
  intros Hnil. apply Forall_forall. intros x Hin HP.
  by apply (filter_nil_not_elem_of _ _ _ Hnil HP).
Qed.

(** X7. Requesting the display names of catalogue entries gives these entries
    back, in the same order and with the same repetitions: the lookup by
    display name is the inverse of taking the display name. *)
Theorem resolve_selection_of_display_names (chosen : list SpaceServer) :
  chosen ≠ [] ->
  Forall (fun space => space ∈ POPULAR_SPACES) chosen ->
  resolve_selection (Some (map display_name chosen)) = Ok chosen.
Proof.
  intros Hne Hall. destruct chosen as [|space rest]; [done|].
  change (map display_name (space :: rest))
    with (display_name space :: map display_name rest).
  rewrite resolve_selection_Some_cons, filter_none_pass.
  - change (display_name space :: map display_name rest)
      with (map display_name (space :: rest)).
    clear Hne. induction Hall as [|x xs Hx _ IH]; [done|].
    change (map display_name (x :: xs))
      with (display_name x :: map display_name xs).
    rewrite mapM_result_cons, IH.
    by rewrite (proj2 (getitem_Ok _ _ _) (available_catalogue_entry _ Hx)).
  - change (Forall
              (fun name => ~ (name ∉ map display_name POPULAR_SPACES))
              (map display_name (space :: rest))).
    apply Forall_fmap. eapply Forall_impl; [exact Hall|]. cbv beta.
    intros x Hx Hnot. apply Hnot, list_elem_of_fmap. by exists x.
Qed.

Lemma resolve_selection_of_display_names_witness :
  resolve_selection
    (Some (map display_name
             [mkSpaceServer "microsoft/phi-3-vision" "phi-3-vision" "http"
                "https://microsoft-phi-3-vision.hf.space/mcp"
                ("Vision-language toolchain exposing the Phi-3 multimodal experience via"
                 +:+ " MCP compatible HTTP endpoints.");
              mkSpaceServer "modelcontextprotocol/Everything" "everything"
                "command"
                "npx -y @modelcontextprotocol/server-everything stdio"
                ("Comprehensive protocol exerciser with echo, add, resources, prompts, and"
                 +:+ " sampling support. Useful for validating MCP client implementations.");
              mkSpaceServer "microsoft/phi-3-vision" "phi-3-vision" "http"
                "https://microsoft-phi-3-vision.hf.space/mcp"
                ("Vision-language toolchain exposing the Phi-3 multimodal experience via"
                 +:+ " MCP compatible HTTP endpoints.")]))
  = Ok [mkSpaceServer "microsoft/phi-3-vision" "phi-3-vision" "http"
          "https://microsoft-phi-3-vision.hf.space/mcp"
          ("Vision-language toolchain exposing the Phi-3 multimodal experience via"
           +:+ " MCP compatible HTTP endpoints.");
        mkSpaceServer "modelcontextprotocol/Everything" "everything"
          "command"
          "npx -y @modelcontextprotocol/server-everything stdio"
          ("Comprehensive protocol exerciser with echo, add, resources, prompts, and"
           +:+ " sampling support. Useful for validating MCP client implementations.");
        mkSpaceServer "microsoft/phi-3-vision" "phi-3-vision" "http"
          "https://microsoft-phi-3-vision.hf.space/mcp"
          ("Vision-language toolchain exposing the Phi-3 multimodal experience via"
           +:+ " MCP compatible HTTP endpoints.")].
Proof.
  apply resolve_selection_of_display_names; [discriminate|].
  repeat (apply Forall_cons; split;
          [unfold POPULAR_SPACES; rewrite !elem_of_cons; tauto|]).
  constructor.
Defined.

(** X8. The selector either returns entries or raises [SystemExit]; the
    [KeyError] of the lookup [available[name]] is never raised.  A request
    resolves exactly when each of its names is the display name of a catalogue
    entry. *)
Theorem resolve_selection_outcomes (selection : option (list string)) :
  ((exists chosen, resolve_selection selection = Ok chosen)
   \/ (exists msg, resolve_selection selection = Raise (SystemExit msg)))
  /\ (forall names,
        selection = Some names ->
        ((exists chosen, resolve_selection selection = Ok chosen)
         <-> Forall (fun name => name ∈ map display_name POPULAR_SPACES)
               names)).
Proof.
  assert (forall names,
            Forall (fun name => name ∈ map display_name POPULAR_SPACES) names ->
            exists chosen, resolve_selection (Some names) = Ok chosen)
    as Hknown.
  { intros [|n names] Hall; [by eexists|].
    by apply resolve_selection_known. }
  assert (forall names,
            ~ Forall (fun name => name ∈ map display_name POPULAR_SPACES) names
            -> exists msg,
                 resolve_selection (Some names) = Raise (SystemExit msg))
    as Hunknown.
  { intros names Hnot. eexists. apply resolve_selection_unknown.
    intros Hnil%filter_nil_Forall. apply Hnot.
    eapply Forall_impl; [exact Hnil|]. cbv beta. intros name Hname.
    by destruct (decide (name ∈ map display_name POPULAR_SPACES)). }
  split.
  - destruct selection as [names|]; [|left; by eexists].
    destruct (decide (Forall
                (fun name => name ∈ map display_name POPULAR_SPACES) names))
      as [Hall|Hnot]; [left; by apply Hknown|right; by apply Hunknown].
  - intros names ->. split; [|apply Hknown].
    intros [chosen Hres].
    destruct (decide (Forall
                (fun name => name ∈ map display_name POPULAR_SPACES) names))
      as [Hall|Hnot]; [done|].
    destruct (Hunknown _ Hnot) as [msg Hmsg]. congruence.
Qed.

Lemma dict_ext {V} (d1 d2 : dict V) :
  NoDup (Dict.keys d1) ->
  Dict.keys d1 = Dict.keys d2 ->
  (forall k, Dict.get d1 k = Dict.get d2 k) ->
  d1 = d2.
Proof.
  unfold Dict.keys. revert d2.
  induction d1 as [|[k v] d1 IH]; intros [|[k' v'] d2]; simpl; try done.
  intros [Hk Hnd]%NoDup_cons [= <- Hkeys] Hget.
  pose proof (Hget k) as Hv. simpl in Hv. rewrite String.eqb_refl in Hv.
  injection Hv as <-. f_equal. apply IH; [done|done|].
  intros k0. destruct (String.eqb_spec k0 k) as [->|Hne].
  - transitivity (@None V); [|symmetry]; apply get_None_keys; unfold Dict.keys;
      [done|by rewrite <- Hkeys].
  - specialize (Hget k0). simpl in Hget.
    apply String.eqb_neq in Hne. by rewrite Hne in Hget.
Qed.

Lemma last_occurrence (spaces : list SpaceServer) (k : string) :
  k ∈ map display_name spaces ->
  exists pre space post,
    spaces = pre ++ space :: post
    /\ display_name space = k
    /\ (forall later, later ∈ post -> display_name later ≠ k).
Proof.
  induction spaces as [|x rest IH]; [by intros ?%elem_of_nil|].
  intros Hin.
  destruct (decide (k ∈ map display_name rest)) as [Hrest|Hrest].
  - destruct (IH Hrest) as (pre & space & post & -> & Hk & Hlast).
    by exists (x :: pre), space, post.
  - change (map display_name (x :: rest))
      with (display_name x :: map display_name rest) in Hin.
    apply elem_of_cons in Hin as [->|Hin]; [|done].
    exists [], x, rest. split_and!; [done|done|].
    intros later Hlater Heq. apply Hrest, list_elem_of_fmap. by exists later.
Qed.

(** The value of a name in the mapping merged from catalogue entries is the
    fragment of the catalogue entry of that name. *)
Lemma merged_catalogue_value (chosen : list SpaceServer)
    (config : dict pyobj) (k : string) :
  Forall (fun space => space ∈ POPULAR_SPACES) chosen ->
  build_combined_config chosen = Ok config ->
  k ∈ map display_name chosen ->
  exists space server_config,
    space ∈ POPULAR_SPACES /\ display_name space = k
    /\ to_config space = Ok [(k, server_config)]
    /\ Dict.get config k = Some server_config.
Proof.
  intros Hall Hconfig (pre & space & post & -> & <- & Hlast)%last_occurrence.
  destruct (build_combined_loop_last_wins _ _ _ _ _ Hconfig Hlast)
    as (server_config & Hf & Hget).
  exists space, server_config. split_and!; try done.
  rewrite Forall_forall in Hall. apply Hall.
  rewrite elem_of_app, elem_of_cons. tauto.
Qed.

Lemma merged_catalogue_configs_equal (chosen chosen' : list SpaceServer)
    (config config' : dict pyobj) :
  Forall (fun space => space ∈ POPULAR_SPACES) chosen ->
  Forall (fun space => space ∈ POPULAR_SPACES) chosen' ->
  build_combined_config chosen = Ok config ->
  build_combined_config chosen' = Ok config' ->
  first_seen (map display_name chosen) = first_seen (map display_name chosen')
  -> config = config'.
Proof.
  intros Hall Hall' Hconfig Hconfig' Hnames.
  pose proof (build_combined_config_keys _ _ Hconfig) as Hkeys.
  pose proof (build_combined_config_keys _ _ Hconfig') as Hkeys'.
  apply dict_ext.
  - rewrite Hkeys. apply NoDup_first_seen.
  - by rewrite Hkeys, Hkeys'.
  - intros k.
    destruct (decide (k ∈ map display_name chosen)) as [Hin|Hout].
    + assert (k ∈ map display_name chosen') as Hin'.
      { apply elem_of_first_seen. rewrite <- Hnames.
        by apply elem_of_first_seen. }
      destruct (merged_catalogue_value _ _ _ Hall Hconfig Hin)
        as (a & ca & Ha & Hka & Hfa & ->).
      destruct (merged_catalogue_value _ _ _ Hall' Hconfig' Hin')
        as (b & cb & Hb & Hkb & Hfb & ->).
      assert (a = b) as <- by (apply catalogue_entry_unique; congruence).
      congruence.
    + transitivity (@None pyobj); [|symmetry]; apply get_None_keys.
      * by rewrite Hkeys, elem_of_first_seen.
      * rewrite Hkeys', <- Hnames. by rewrite elem_of_first_seen.
Qed.

(** X9. Naming an entry more than once in the request changes nothing in a
    run that writes: the request and the request without its repetitions give
    the same merged mapping, and [main] leaves the same world (the same file
    and the same messages) and returns the same result. *)
Theorem repeated_names_change_nothing (selection : list string)
    (output_path : string) (w : World) :
  selection ≠ [] ->
  Forall (fun name => name ∈ map display_name POPULAR_SPACES) selection ->
  (exists chosen chosen' config,
     resolve_selection (Some selection) = Ok chosen
     /\ resolve_selection (Some (first_seen selection)) = Ok chosen'
     /\ build_combined_config chosen = Ok config
     /\ build_combined_config chosen' = Ok config)
  /\ main {| output := output_path; list_only := false;
             include := Some selection |} w
     = main {| output := output_path; list_only := false;
               include := Some (first_seen selection) |} w.
Proof.
  intros Hne Hknown.
  assert (first_seen selection ≠ []) as Hne'
    by (destruct selection; [done|discriminate]).
  assert (Forall (fun name => name ∈ map display_name POPULAR_SPACES)
            (first_seen selection)) as Hknown'.
  { rewrite Forall_forall in Hknown. apply Forall_forall.
    intros name Hin. apply Hknown.
    exact (proj1 (elem_of_first_seen _ _) Hin). }
  destruct (resolve_selection_known _ Hne Hknown) as [chosen Hres].
  destruct (resolve_selection_known _ Hne' Hknown') as [chosen' Hres'].
  destruct (resolve_selection_chosen _ _ Hres) as [Hall Hnames].
  destruct (resolve_selection_chosen _ _ Hres') as [Hall' Hnames'].
  specialize (Hnames _ eq_refl Hne). specialize (Hnames' _ eq_refl Hne').
  assert (Forall renders chosen) as Hrender.
  { rewrite Forall_forall in Hall. apply Forall_forall. intros space Hin.
    exact (proj1 (Forall_forall _ _) catalogue_renders _ (Hall _ Hin)). }
  assert (Forall renders chosen') as Hrender'.
  { rewrite Forall_forall in Hall'. apply Forall_forall. intros space Hin.
    exact (proj1 (Forall_forall _ _) catalogue_renders _ (Hall' _ Hin)). }
  destruct (build_combined_loop_succeeds chosen [] Hrender)
    as [config Hconfig].
  destruct (build_combined_loop_succeeds chosen' [] Hrender')
    as [config' Hconfig'].
  assert (config = config') as <-.
  { apply (merged_catalogue_configs_equal chosen chosen'); try done.
    rewrite Hnames, Hnames'.
    by rewrite (first_seen_NoDup_id _ (NoDup_first_seen selection)). }
  split; [by exists chosen, chosen', config|].
  rewrite (main_resolved _ chosen w) by done.
  rewrite (main_resolved _ chosen' w) by done.
  cbn [list_only output]. unfold build_combined_config.
  by rewrite !lift_bind, Hconfig, Hconfig'.
Qed.

Lemma repeated_names_change_nothing_witness :
  main {| output := DEFAULT_CONFIG_PATH; list_only := false;
          include := Some ["phi-3-vision"; "everything"; "phi-3-vision"] |}
       (quiet_world ∅)
  = main {| output := DEFAULT_CONFIG_PATH; list_only := false;
            include := Some ["phi-3-vision"; "everything"] |}
         (quiet_world ∅).
Proof.
  refine (proj2 (repeated_names_change_nothing
    ["phi-3-vision"; "everything"; "phi-3-vision"] DEFAULT_CONFIG_PATH
    (quiet_world ∅) _ _)); [discriminate|].
  rewrite catalogue_names. compute_done.
Defined.

(** ** The whole run *)

Lemma resolve_selection_all_known (names : list string) :
  Forall (fun name => name ∈ map display_name POPULAR_SPACES) names ->
  exists chosen, resolve_selection (Some names) = Ok chosen.
Proof.
  destruct names as [|n names]; [by eexists|].
  by apply resolve_selection_known.
Qed.

Lemma resolve_selection_some_unknown (names : list string) :
  ~ Forall (fun name => name ∈ map display_name POPULAR_SPACES) names ->
  exists msg, resolve_selection (Some names) = Raise (SystemExit msg).
Proof.
  intros Hnot. eexists. apply resolve_selection_unknown.
  intros Hnil%filter_nil_Forall. apply Hnot.
  eapply Forall_impl; [exact Hnil|]. cbv beta. intros name Hname.
  by destruct (decide (name ∈ map display_name POPULAR_SPACES)).
Qed.

Lemma resolved_selection_merges (selection : option (list string))
    (chosen : list SpaceServer) :
  resolve_selection selection = Ok chosen ->
  exists config, build_combined_config chosen = Ok config.
Proof.
  intros [Hall _]%resolve_selection_chosen.
  apply build_combined_loop_succeeds.
  rewrite Forall_forall in Hall. apply Forall_forall. intros space Hin.
  exact (proj1 (Forall_forall _ _) catalogue_renders _ (Hall _ Hin)).
Qed.


(** The three ways a run can go. *)
Lemma main_cases (args : Namespace) (w : World) :
  (exists msg,
     resolve_selection (include args) = Raise (SystemExit msg)
     /\ main args w = (w, Raise (SystemExit msg)))
  \/ (exists chosen,
        resolve_selection (include args) = Ok chosen
        /\ list_only args = true
        /\ main args w
           = (with_stdout (stdout w +:+ summary_text chosen) w, Ok 0%Z))
  \/ (exists chosen config,
        resolve_selection (include args) = Ok chosen
        /\ list_only args = false
        /\ build_combined_config chosen = Ok config
        /\ main args w = write_run config (output args) w).
Proof.
  destruct (resolve_selection (include args)) as [chosen|e] eqn:Hres.
  - right. destruct (list_only args) eqn:Hlist.
    + left. exists chosen. split_and!; [done|done|]. by apply main_lists.
    + right. destruct (resolved_selection_merges _ _ Hres) as [config Hc].
      exists chosen, config. split_and!; [done|done|done|].
      by apply (main_writes args chosen).
  - left. destruct (include args) as [names|] eqn:Hinc; [|done].
    destruct (decide (Forall
                (fun name => name ∈ map display_name POPULAR_SPACES) names))
      as [Hall|Hnot].
    + destruct (resolve_selection_all_known _ Hall) as [chosen Hc].
      congruence.
    + destruct (resolve_selection_some_unknown _ Hnot) as [msg Hmsg].
      exists msg. split; [congruence|].
      apply main_unresolved. rewrite Hinc. done.
Qed.

(** What a run that writes leaves: the decisions of the environment are as
    before, the standard output has grown, and the files differ at the output
    path at most, where a file is after every attempt that got to open it. *)
Lemma write_run_world (config : dict pyobj) (output_path : string)
    (w : World) :
  fs_write (fst (write_run config output_path w)) = fs_write w
  /\ stdout_encodes (fst (write_run config output_path w)) = stdout_encodes w
  /\ (exists printed,
        stdout (fst (write_run config output_path w)) = stdout w +:+ printed)
  /\ files (fst (write_run config output_path w))
     = match fs_write w output_path (config_text config) with
       | Written => <[output_path := config_text config]> (files w)
       | Refused _ => files w
       | Broken _ remains => <[output_path := remains]> (files w)
       end.
Proof.
  unfold write_run.
  destruct (fs_write w output_path (config_text config))
    as [|msg|msg remains];
    [destruct (stdout_encodes w _)|..]; cbn [fst];
    split_and!; try done; try (by eexists);
    exists ""; by rewrite append_nil_r.
Qed.




(** [main] leaves the decisions of the environment as they are. *)
Lemma main_environment (args : Namespace) (w : World) :
  fs_write (fst (main args w)) = fs_write w
  /\ stdout_encodes (fst (main args w)) = stdout_encodes w.
Proof.
  destruct (main_cases args w)
    as [(msg & Hres & Hmain)
       |[(chosen & Hres & Hlist & Hmain)
        |(chosen & config & Hres & Hlist & Hconfig & Hmain)]];
    rewrite Hmain; [done|done|].
  by destruct (write_run_world config (output args) w) as (? & ? & _).
Qed.

(** X12. Running [main] a second time with the same arguments leaves the
    files as the first run left them. *)
Theorem main_twice_same_files (args : Namespace) (w : World) :
  files (fst (main args (fst (main args w)))) = files (fst (main args w)).
Proof.
  destruct (main_environment args w) as [Hfs Henc].
  destruct (main_cases args (fst (main args w)))
    as [(msg & Hres' & Hmain')
       |[(chosen' & Hres' & Hlist' & Hmain')
        |(chosen' & config' & Hres' & Hlist' & Hconfig' & Hmain')]];
    rewrite Hmain'; [done|done|].
  destruct (write_run_world config' (output args) (fst (main args w)))
    as (_ & _ & _ & ->).
  rewrite Hfs.
  destruct (main_cases args w)
    as [(msg & Hres & Hmain)
       |[(chosen & Hres & Hlist & Hmain)
        |(chosen & config & Hres & Hlist & Hconfig & Hmain)]];
    [congruence|congruence|].
  assert (chosen' = chosen) as -> by congruence.
  assert (config' = config) as -> by congruence.
  rewrite Hmain.
  destruct (write_run_world config (output args) w) as (_ & _ & _ & ->).
  destruct (fs_write w (output args) (config_text config));
    [apply insert_insert_eq|done|apply insert_insert_eq].
Qed.

(** X13. Whatever the arguments, [main] only adds to the standard output,
    changes no file other than the output file, removes no file, and with
    [--list-only] changes no file at all. *)
Theorem main_touches_only_output (args : Namespace) (w : World) :
  (exists printed, stdout (fst (main args w)) = stdout w +:+ printed)
  /\ (forall path,
        path ≠ output args ->
        files (fst (main args w)) !! path = files w !! path)
  /\ (forall path,
        is_Some (files w !! path) ->
        is_Some (files (fst (main args w)) !! path))
  /\ (list_only args = true -> files (fst (main args w)) = files w).
Proof.
  destruct (main_cases args w)
    as [(msg & Hres & Hmain)
       |[(chosen & Hres & Hlist & Hmain)
        |(chosen & config & Hres & Hlist & Hconfig & Hmain)]];
    rewrite Hmain.
  - cbn [fst]. split_and!; try done. exists "". by rewrite append_nil_r.
  - cbn [fst with_stdout files stdout]. split_and!; try done. by eexists.
  - destruct (write_run_world config (output args) w)
      as (_ & _ & Hout & ->).
    split_and!; [done| | |congruence].
    + intros path Hpath.
      destruct (fs_write w (output args) (config_text config));
        [|done|]; by apply lookup_insert_ne.
    + intros path Hsome.
      destruct (fs_write w (output args) (config_text config));
        [|done|];
        (destruct (decide (output args = path)) as [<-|Hne];
         [rewrite lookup_insert_eq; by eexists|by rewrite lookup_insert_ne]).
Qed.



(** ** The written text *)

Lemma plain_text_app (a b : string) :
  plain_text (a +:+ b) = plain_text a && plain_text b.
Proof.
  induction a as [|c a IH]; [done|]. simpl. by rewrite IH, andb_assoc.
Qed.

Lemma plain_escape_char (c : ascii) : plain_text (escape_char c) = true.
Proof. destruct c as [[] [] [] [] [] [] [] []]; reflexivity. Qed.

Lemma plain_encode_basestring_ascii (s : string) :
  plain_text (encode_basestring_ascii s) = true.
Proof.
  unfold encode_basestring_ascii.
  change (plain_text (String dquote "" +:+ escape s +:+ String dquote "")
          = true).
  rewrite !plain_text_app.
  assert (plain_text (escape s) = true) as ->; [|done].
  induction s as [|c s IH]; [done|]. cbn [escape].
  by rewrite plain_text_app, plain_escape_char, IH.
Qed.

Lemma plain_newline_indent (level : nat) :
  plain_text (newline_indent level) = true.
Proof.
  unfold newline_indent. simpl.
  induction (level + (level + 0)) as [|n IH]; [done|]. simpl. exact IH.
Qed.

Lemma plain_iterencode (o : pyobj) (level : nat) :
  plain_text (iterencode level o) = true.
Proof.
  revert level. induction o as [s|xs IH|kvs IH] using pyobj_ind; intros level.
  - apply plain_encode_basestring_ascii.
  - destruct xs as [|x xs]; [done|].
    apply Forall_cons in IH as [IHx IHxs].
    rewrite iterencode_list, !plain_text_app, !plain_newline_indent, IHx.
    assert (plain_text (more_elements (S level) xs) = true) as ->; [|done].
    induction IHxs as [|y ys Hy _ IH']; [done|]. cbn [more_elements].
    by rewrite !plain_text_app, plain_newline_indent, Hy, IH'.
  - destruct kvs as [|[k v] kvs]; [done|].
    apply Forall_cons in IH as [IHx IHxs]. simpl in IHx.
    rewrite iterencode_dict, !plain_text_app, !plain_newline_indent,
      plain_encode_basestring_ascii, IHx.
    assert (plain_text (more_items (S level) kvs) = true) as ->; [|done].
    induction IHxs as [|[k' y] ys Hy _ IH']; [done|]. cbn [more_items].
    simpl in Hy.
    by rewrite !plain_text_app, plain_newline_indent,
      plain_encode_basestring_ascii, Hy, IH'.
Qed.

(** X14. The text that [json.dumps] produces, and so the content of the file
    whenever [write_config] has written it, has only printable ASCII
    characters and line feeds, whatever characters the names, URLs and
    command lines have. *)
Theorem written_text_is_plain_ascii (config : dict pyobj)
    (output_path : string) (w : World) :
  (forall o, plain_text (dumps o) = true)
  /\ (forall w',
        write_config config output_path w = (w', Ok tt) ->
        exists text,
          files w' !! output_path = Some text
          /\ plain_text text = true).
Proof.
  split.
  - intros o. apply plain_iterencode.
  - unfold write_config, write_text.
    destruct (fs_write w output_path _); [|done|done].
    intros w' [= <-].
    exists (dumps (PDict [("servers", PDict config)])). split.
    + apply lookup_insert_eq.
    + apply plain_iterencode.
Qed.

(** X15. Two different values (without a repeated key in a dictionary) never
    have the same text: the written file determines the mapping. *)
Theorem dumps_tells_values_apart (a b : pyobj) :
  wf a -> wf b -> a ≠ b -> dumps a ≠ dumps b.
Proof.
  intros Ha Hb Hne Heq. apply Hne.
  apply loads_dumps in Ha, Hb. rewrite Heq in Ha. congruence.
Qed.

Lemma dumps_tells_values_apart_witness :
  dumps (PDict [("servers", PDict [("a", PDict [("type", PStr "http");
                                               ("url", PStr "u")])])])
  ≠ dumps (PDict [("servers", PDict [("a", PDict [("type", PStr "ws");
                                                 ("url", PStr "u")])])]).
Proof.
  apply dumps_tells_values_apart.
  - apply (build_combined_config_wf [mkSpaceServer "i" "a" "http" "u" ""]).
    reflexivity.
  - apply (build_combined_config_wf [mkSpaceServer "i" "a" "ws" "u" ""]).
    reflexivity.
  - discriminate.
Defined.
